(** * Table Church community map: location resolution, distribution and proxy filter

    A shallow embedding of the group pipeline of the community map:

    - the Netlify proxy function ([fetchGroups], [processGroupData]) in its two
      variants, the one of [netlify/functions/planning-center.js] (module
      [Proxy]) and the personal-access-token one (module [ProxyPAT]);
    - the browser client, class [PlanningCenterAPI]: [getGroups],
      [processGroups], [extractLocation], [extractLocationFromName],
      [determineGroupType], [geocodeLocation], [addRandomOffset],
      [extractNeighborhood], [distributeGroupsGeographically] and
      [getFallbackGroups].

    Further parts of the same files are embedded for the properties of the
    last part of this file: the [handler] of both proxy variants, the
    statistics of the client ([getGroupStats], [analyzeLocationCoverage]) and
    the second definition of the class, with the basic geocoder (module
    [PlanningCenterAPIBasic]). The map widget and the page script work on the
    DOM and on the mapping library and are not embedded.

    Modelling conventions.

    - JavaScript strings are strings of 8-bit characters; [toLowerCase] and
      [trim] act on the ASCII letters and the ASCII white space.
    - A JavaScript number is the rational it denotes. A numeral of the source
      stands for the binary64 value nearest to it, and every sum, difference
      and product of the code is rounded to binary64, to nearest with ties to
      even (module [Binary64]). Infinities and NaN do not arise from the
      coordinates of the code and are not modelled.
    - [Math.random()] reads the next value of a stream [random] held by the
      environment; the state counts the values drawn so far.
    - [fetch] reads the environment's [network]; the state records the URLs
      requested.
    - An attribute bag is a record of optional fields ([None] is [undefined] or
      [null]); fields hold values of the JSON type the code expects.
    - A JSON body is [null] or an object of which the code reads [error],
      [groups] and [data]; the latter two hold an array of groups, nothing, or
      a value that is no array. A body that is a number, a string, a boolean
      or an array reads like the object without these three properties.
    - [console.log] and [console.error] do not influence any result and are
      left out. *)

From Stdlib Require Import ZArith QArith Qround Qabs Qpower.
From Stdlib Require Import List String Ascii Bool Lia Lqa.
From Stdlib Require Floats.
Import ListNotations.

Local Open Scope string_scope.
Local Open Scope list_scope.

(** ** JavaScript primitives used by the code *)

Module JS.

Definition isUpper (c : ascii) : bool :=
  let n := nat_of_ascii c in (65 <=? n)%nat && (n <=? 90)%nat.

Definition lowerChar (c : ascii) : ascii :=
  if isUpper c then ascii_of_nat (nat_of_ascii c + 32) else c.

(** [String.prototype.toLowerCase]. *)
Fixpoint toLowerCase (s : string) : string :=
  match s with
  | EmptyString => EmptyString
  | String c s' => String (lowerChar c) (toLowerCase s')
  end.

(** Tab, line feed, vertical tab, form feed, carriage return and space. *)
Definition isWhiteSpace (c : ascii) : bool :=
  let n := nat_of_ascii c in ((9 <=? n)%nat && (n <=? 13)%nat) || (n =? 32)%nat.

Fixpoint trimStart (s : string) : string :=
  match s with
  | EmptyString => EmptyString
  | String c s' => if isWhiteSpace c then trimStart s' else s
  end.

Fixpoint trimEnd (s : string) : string :=
  match s with
  | EmptyString => EmptyString
  | String c s' =>
      let t := trimEnd s' in
      if isWhiteSpace c && (t =? "") then EmptyString else String c t
  end.

(** [String.prototype.trim]. *)
Definition trim (s : string) : string := trimEnd (trimStart s).

(** [s.includes(t)]: [t] occurs in [s] as a contiguous substring. *)
Fixpoint includes (s t : string) : bool :=
  String.prefix t s ||
  match s with
  | EmptyString => false
  | String _ s' => includes s' t
  end.

(** [s.split(',')[0]]: the text before the first comma. *)
Fixpoint beforeComma (s : string) : string :=
  match s with
  | EmptyString => EmptyString
  | String c s' => if Ascii.eqb c "," then EmptyString else String c (beforeComma s')
  end.

(** Truthiness of a string value: every string but the empty one. *)
Definition truthy (s : string) : bool := negb (s =? "").

(** Truthiness of an optional string ([undefined] and [null] are falsy). *)
Definition truthyOpt (o : option string) : bool :=
  match o with
  | Some s => truthy s
  | None => false
  end.

(** [a || d] for an optional string [a] and a string default [d]. *)
Definition orElse (a : option string) (d : string) : string :=
  match a with
  | Some s => if truthy s then s else d
  | None => d
  end.

(** [a || d] for an optional number. *)
Definition orElseZ (a : option Z) (d : Z) : Z :=
  match a with
  | Some n => if (n =? 0)%Z then d else n
  | None => d
  end.

(** [a || d] for an optional boolean. *)
Definition orElseBool (a : option bool) (d : bool) : bool :=
  match a with
  | Some true => true
  | _ => d
  end.

(** [!a] for an optional boolean. *)
Definition notOpt (a : option bool) : bool :=
  match a with
  | Some true => false
  | _ => true
  end.

(** [list.filter(Boolean)] on a list of optional strings. *)
Fixpoint filterBoolean (l : list (option string)) : list string :=
  match l with
  | [] => []
  | Some s :: l' => if truthy s then s :: filterBoolean l' else filterBoolean l'
  | None :: l' => filterBoolean l'
  end.

(** The names that every object literal inherits from [Object.prototype]:
    reading one of them from a plain object yields a function, or the
    prototype itself for [__proto__]. *)
Definition objectPrototypeNames : list string :=
  [ "constructor"; "__defineGetter__"; "__defineSetter__"; "hasOwnProperty";
    "__lookupGetter__"; "__lookupSetter__"; "isPrototypeOf";
    "propertyIsEnumerable"; "toString"; "valueOf"; "__proto__";
    "toLocaleString" ].

Definition inherited (key : string) : bool :=
  existsb (String.eqb key) objectPrototypeNames.

(** [s.slice(n)]: [s] without its first [n] characters. *)
Fixpoint dropChars (n : nat) (s : string) : string :=
  match n, s with
  | O, _ => s
  | S n', String _ s' => dropChars n' s'
  | S _, EmptyString => EmptyString
  end.

(** [s.replace(pattern, '')] for a string [pattern]: the leftmost occurrence
    of [pattern] is removed, a string without occurrence is returned as it
    is. *)
Fixpoint removeFirst (s pattern : string) : string :=
  if String.prefix pattern s then dropChars (String.length pattern) s
  else
    match s with
    | EmptyString => EmptyString
    | String c s' => String c (removeFirst s' pattern)
    end.

(** A [Set] of strings in insertion order, and [set.add(x)]. *)
Definition setAdd (x : string) (set : list string) : list string :=
  if existsb (String.eqb x) set then set else set ++ [x].

End JS.

(** ** JavaScript numbers: binary64 arithmetic *)

Module Binary64.

(** [2 ^ k] for an integer [k] of either sign. *)
Definition pow2 (k : Z) : Q := (2 ^ k)%Q.

(** The binade of a number other than zero: the [e] with
    [2 ^ e <= |x| < 2 ^ (e + 1)]. *)
Definition binade (x : Q) : Z :=
  let e := (Z.log2 (Z.abs (Qnum x)) - Z.log2 (Zpos (Qden x)))%Z in
  if Qle_bool (pow2 e) (Qabs x) then e else (e - 1)%Z.

(** The exponent of the last place of the binary64 values around [x]: 53
    significant bits, and the subnormal range below [2 ^ -1022]. *)
Definition exponent (x : Q) : Z := Z.max (binade x - 52) (-1074).

(** The integer nearest to [m], the even one of two that are equally near. *)
Definition roundEven (m : Q) : Z :=
  let f := Qfloor m in
  match Qcompare (m - inject_Z f) (1 # 2) with
  | Lt => f
  | Gt => (f + 1)%Z
  | Eq => if Z.even f then f else (f + 1)%Z
  end.

(** The binary64 value nearest to [x] (round to nearest, ties to even), for
    [x] below the overflow threshold. *)
Definition round (x : Q) : Q :=
  Qred (inject_Z (roundEven (x / pow2 (exponent x))) * pow2 (exponent x)).

(** [x + y], [x - y] and [x * y] on numbers. *)
Definition add (x y : Q) : Q := round (x + y).

Definition sub (x y : Q) : Q := round (x - y).

Definition mul (x y : Q) : Q := round (x * y).

End Binary64.

(** ** Data model *)

Definition Coords : Type := Q * Q.

(** The attribute bag of a raw group: the keys read or written by the proxy
    and by the client. *)
Module Attributes.
Record t : Type := mk {
  name : option string;
  description : option string;
  location_type_preference : option string;
  location : option string;
  contact_info : option string;
  church_center_url_location : option string;
  address : option string;
  meeting_location : option string;
  schedule : option string;
  contact_email : option string;
  public_church_center_web_url : option string;
  public_url : option string;
  memberships_count : option Z;
  archived : option bool;
  updated_at : option string;
  group_type : option string;
  enrollment : option string
}.

(** The empty object [{}]. *)
Definition empty : t :=
  mk None None None None None None None None None None None None None None
     None None None.
End Attributes.

Record RawGroup : Type := {
  raw_id : string;
  attributes : option Attributes.t
}.

(** [group.attributes || {}]. *)
Definition attributesOf (group : RawGroup) : Attributes.t :=
  match attributes group with
  | Some a => a
  | None => Attributes.empty
  end.

Inductive GroupType : Type := community | affinity.

Module Location.
Record t : Type := mk {
  address : string;
  neighborhood : string;
  coordinates : option Coords;
  hasSpecificLocation : bool
}.
End Location.

Record GroupRecord : Type := {
  id : string;
  name : string;
  description : string;
  groupType : GroupType;
  location : Location.t;
  meetingDay : string;
  contactInfo : string;
  coordinates : option Coords;
  memberCount : Z;
  isActive : bool;
  lastUpdated : option string
}.

(** What reading a key of the gazetteer object can evaluate to. *)
Inductive JsValue : Type :=
| CoordPair (lat lng : Q)
| PrototypeMember
| Undefined.

(** ** Effects: network, random numbers, exceptions *)

(** What a property that the code uses as an array of groups holds. *)
Inductive GroupsField : Type :=
| Absent                            (* [undefined], [null] or another falsy value *)
| Groups (groups : list RawGroup)   (* an array of groups *)
| NotAnArray.                       (* a truthy value that is no array *)

(** The JSON objects the code reads: the proxy's answer has [groups] or
    [error], the upstream answer has [data]. *)
Record JsonDoc : Type := {
  doc_error : option string;
  doc_groups : GroupsField;
  doc_data : GroupsField
}.

(** A parsed body. *)
Inductive JsonValue : Type :=
| JsonNull
| JsonObject (doc : JsonDoc).

Record Response : Type := {
  ok : bool;
  status : Z;
  text : string;
  json : option JsonValue   (* [None]: the body is not JSON, [json()] rejects *)
}.

Inductive FetchResult : Type :=
| Rejected                      (* network failure: the promise rejects *)
| Resolved (response : Response).

Record Env : Type := {
  network : string -> FetchResult;
  random : nat -> Q
}.

Record State : Type := {
  requests : list string;   (* URLs fetched so far, latest first *)
  drawn : nat               (* calls of [Math.random] so far *)
}.

Inductive Error : Type :=
| TypeError (what : string)
| FetchError
| SyntaxError
| HttpError (prefix : string) (status : Z) (errorText : string)
| ErrorMsg (message : string).

Inductive Completion (A : Type) : Type :=
| Normal (a : A)
| Throw (e : Error).
Arguments Normal {A} a.
Arguments Throw {A} e.

Definition M (A : Type) : Type := Env -> State -> Completion A * State.

Definition ret {A} (a : A) : M A := fun _ st => (Normal a, st).

Definition bind {A B} (m : M A) (k : A -> M B) : M B :=
  fun E st =>
    match m E st with
    | (Normal a, st') => k a E st'
    | (Throw e, st') => (Throw e, st')
    end.

Definition throw {A} (e : Error) : M A := fun _ st => (Throw e, st).

Declare Scope js_scope.
Delimit Scope js_scope with js.
Notation "'let*' x ':=' m 'in' k" := (bind m (fun x => k))
  (at level 10, x name, m at level 100, k at level 200) : js_scope.
Local Open Scope js_scope.

(** [Math.random()]. *)
Definition Math_random : M Q :=
  fun E st => (Normal (random E (drawn st)),
               {| requests := requests st; drawn := S (drawn st) |}).

(** [await fetch(url)]. *)
Definition fetch (url : string) : M Response :=
  fun E st =>
    let st' := {| requests := url :: requests st; drawn := drawn st |} in
    match network E url with
    | Rejected => (Throw FetchError, st')
    | Resolved r => (Normal r, st')
    end.

(** [await response.json()]. *)
Definition response_json (r : Response) : M JsonValue :=
  match json r with
  | Some value => ret value
  | None => throw SyntaxError
  end.

(** [value.name] for one of the properties [error], [groups] and [data]:
    reading a property of [null] throws. *)
Definition property {A} (field : JsonDoc -> A) (name : string) (value : JsonValue)
    : M A :=
  match value with
  | JsonObject doc => ret (field doc)
  | JsonNull =>
      throw (TypeError ("Cannot read properties of null (reading '" ++ name ++ "')"))
  end.

(** [field || []]. *)
Definition orEmptyArray (field : GroupsField) : GroupsField :=
  match field with
  | Absent => Groups []
  | _ => field
  end.

(** [groups.filter(predicate)]: only an array has the method. *)
Definition array_filter (predicate : RawGroup -> bool) (groups : GroupsField)
    : M (list RawGroup) :=
  match groups with
  | Groups array => ret (filter predicate array)
  | _ => throw (TypeError "groups.filter is not a function")
  end.

(** [array.map(f)] for a callback with effects, left to right. *)
Fixpoint mapM {A B} (f : A -> M B) (l : list A) : M (list B) :=
  match l with
  | [] => ret []
  | x :: l' =>
      let* y := f x in
      let* ys := mapM f l' in
      ret (y :: ys)
  end.

(** Statements of a function body: a statement either falls through to the
    next one or returns from the function. *)
Inductive Flow (R : Type) : Type :=
| Next
| Return (r : R).
Arguments Next {R}.
Arguments Return {R} r.

Definition Stmt (R : Type) : Type := M (Flow R).

Definition seq {R} (s1 s2 : Stmt R) : Stmt R :=
  let* f := s1 in
  match f with
  | Next => s2
  | Return r => ret (Return r)
  end.

Definition return_ {R} (m : M R) : Stmt R :=
  let* r := m in ret (Return r).

Definition const_ {A R} (m : M A) (k : A -> Stmt R) : Stmt R := bind m k.

Definition if_ {R} (b : bool) (s : Stmt R) : Stmt R :=
  if b then s else ret Next.

Definition try_catch {R} (body : Stmt R) (handler : Error -> Stmt R) : Stmt R :=
  fun E st =>
    match body E st with
    | (Throw e, st') => handler e E st'
    | r => r
    end.

(** A function body run to its end: [None] is the [undefined] of a body that
    falls off its last statement. *)
Definition function {R} (body : Stmt R) : M (option R) :=
  let* f := body in
  match f with
  | Return r => ret (Some r)
  | Next => ret None
  end.

(** [try { return body } catch (error) { return handler(error) }]. *)
Definition catching {A} (body : M A) (handler : Error -> M A) : M A :=
  fun E st =>
    match body E st with
    | (Throw e, st') => handler e E st'
    | r => r
    end.

Notation "s1 ';;' s2" := (seq s1 s2)
  (at level 100, s2 at level 200, right associativity) : js_scope.
Notation "'const' x ':=' m ';;' k" := (const_ m (fun x => k))
  (at level 10, x name, m at level 99, k at level 200) : js_scope.

(** ** The browser client: class [PlanningCenterAPI] *)

Module PlanningCenterAPI.

Import JS.

Definition baseURL : string := "/.netlify/functions/planning-center".

(** *** Group classifier *)

Definition affinityKeywords : list string :=
  [ "young adult"; "ya"; "professional"; "graduate"; "student";
    "women"; "men"; "lgbtq"; "queer"; "people of color"; "poc";
    "parents"; "family"; "seniors"; "older adult"; "creative";
    "artist"; "musician"; "book"; "hiking"; "outdoors" ].

Definition determineGroupType (attributes : Attributes.t) : GroupType :=
  let name := toLowerCase (orElse (Attributes.name attributes) "") in
  let description := toLowerCase (orElse (Attributes.description attributes) "") in
  let tags := orElse (Attributes.group_type attributes) "" in
  let isAffinity :=
    existsb (fun keyword => includes name keyword || includes description keyword)
            affinityKeywords in
  if isAffinity then affinity else community.

(** *** Gazetteer *)

Definition dmvLocations : list (string * Coords) :=
  [ ("dupont circle", (38.9097, -77.0365));
    ("dupont", (38.9097, -77.0365));
    ("adams morgan", (38.9220, -77.0420));
    ("capitol hill", (38.8903, -76.9901));
    ("columbia heights", (38.9289, -77.0353));
    ("shaw", (38.9129, -77.0218));
    ("petworth", (38.9369, -77.0249));
    ("brookland", (38.9339, -76.9956));
    ("anacostia", (38.8622, -76.9810));
    ("foggy bottom", (38.9006, -77.0472));
    ("georgetown", (38.9076, -77.0723));
    ("logan circle", (38.9095, -77.0292));
    ("u street", (38.9169, -77.0281));
    ("h street", (38.8998, -76.9951));
    ("navy yard", (38.8762, -77.0065));
    ("downtown", (38.8951, -77.0364));
    ("chinatown", (38.8998, -77.0218));
    ("washington dc", (38.9072, -77.0369));
    ("washington", (38.9072, -77.0369));
    ("dc", (38.9072, -77.0369));
    ("arlington", (38.8816, -77.0910));
    ("alexandria", (38.8048, -77.0469));
    ("fairfax", (38.8462, -77.3064));
    ("vienna", (38.9012, -77.2653));
    ("reston", (38.9687, -77.3411));
    ("sterling", (39.0068, -77.4286));
    ("annandale", (38.8304, -77.1963));
    ("falls church", (38.8823, -77.1711));
    ("tysons", (38.9188, -77.2297));
    ("leesburg", (39.1156, -77.5636));
    ("herndon", (38.9696, -77.3861));
    ("mclean", (38.9338, -77.1775));
    ("springfield", (38.7893, -77.1872));
    ("burke", (38.7932, -77.2719));
    ("woodbridge", (38.6581, -77.2497));
    ("manassas", (38.7509, -77.4753));
    ("bethesda", (38.9807, -77.1010));
    ("rockville", (39.0840, -77.1528));
    ("silver spring", (38.9907, -77.0261));
    ("takoma park", (38.9779, -77.0074));
    ("college park", (38.9897, -76.9378));
    ("hyattsville", (38.9551, -76.9455));
    ("gaithersburg", (39.1434, -77.2014));
    ("germantown", (39.1712, -77.2717));
    ("wheaton", (39.0370, -77.0558));
    ("kensington", (39.0273, -77.0764));
    ("chevy chase", (38.9851, -77.0872));
    ("potomac", (39.0223, -77.2086));
    ("bowie", (38.9426, -76.7302));
    ("laurel", (39.0993, -76.8483));
    ("greenbelt", (38.9912, -76.8756));
    ("riverdale", (38.9584, -76.9119)) ]%Q.

(** Own property of an object literal, in insertion order. *)
Fixpoint ownProperty (entries : list (string * Coords)) (key : string) : option Coords :=
  match entries with
  | [] => None
  | (k, v) :: rest => if String.eqb k key then Some v else ownProperty rest key
  end.

(** [object[key]] on an object literal: the own property if there is one, else
    what [Object.prototype] supplies, else [undefined]. *)
Definition getProperty (entries : list (string * Coords)) (key : string) : JsValue :=
  match ownProperty entries key with
  | Some (lat, lng) => CoordPair lat lng
  | None => if inherited key then PrototypeMember else Undefined
  end.

(** *** Privacy fuzzer *)

(** [(r - 0.5) * 0.0072] for a draw [r]: the difference and the product are
    rounded, and [0.0072] is the number nearest to the numeral. *)
Definition jitter (r : Q) : Q :=
  Binary64.mul (Binary64.sub r 0.5) (Binary64.round 0.0072).

(** The coordinate pair built from the two offsets. The gazetteer and the
    anchors hold the numerals as written, [lat] and [lng] are their
    numbers. *)
Definition offsetBy (lat lng : Q) (r1 r2 : Q) : Coords :=
  (Binary64.add (Binary64.round lat) (jitter r1),
   Binary64.add (Binary64.round lng) (jitter r2)).

(** [const [lat, lng] = coords] needs an iterable: a function or
    [Object.prototype] is not one. *)
Definition addRandomOffset (coords : JsValue) : M Coords :=
  match coords with
  | CoordPair lat lng =>
      let* r1 := Math_random in
      let latOffset := jitter r1 in
      let* r2 := Math_random in
      let lngOffset := jitter r2 in
      ret (Binary64.add (Binary64.round lat) latOffset,
           Binary64.add (Binary64.round lng) lngOffset)
  | PrototypeMember => throw (TypeError "coords is not iterable")
  | Undefined => throw (TypeError "coords is not iterable")
  end.

(** *** Location resolver *)

(** The [for ... of Object.entries(dmvLocations)] loop of the partial match. *)
Definition partialMatch (location : string) : option (string * Coords) :=
  find (fun entry => includes location (fst entry) || includes (fst entry) location)
       dmvLocations.

Definition geocodeLocation (locationString : string) : M Coords :=
  let location := trim (toLowerCase locationString) in
  match getProperty dmvLocations location with
  | CoordPair lat lng => addRandomOffset (CoordPair lat lng)
  | PrototypeMember => addRandomOffset PrototypeMember
  | Undefined =>
      match partialMatch location with
      | Some (place, (lat, lng)) => addRandomOffset (CoordPair lat lng)
      | None =>
          if includes location "virginia" || includes location "va" then
            addRandomOffset (CoordPair 38.8816 (-77.0910))
          else if includes location "maryland" || includes location "md" then
            addRandomOffset (CoordPair 38.9907 (-77.0261))
          else
            addRandomOffset (CoordPair 38.9072 (-77.0369))
      end
  end.

Definition extractNeighborhood (locationString : string) : string :=
  let part := trim (beforeComma locationString) in
  if truthy part then part else "DMV Area".

Definition locationKeywords : list string :=
  [ "dupont circle"; "dupont"; "adams morgan"; "capitol hill"; "columbia heights";
    "shaw"; "petworth"; "brookland"; "anacostia"; "foggy bottom"; "georgetown";
    "logan circle"; "u street"; "h street"; "navy yard"; "downtown"; "chinatown";
    "washington dc"; "washington"; "dc";
    "arlington"; "alexandria"; "fairfax"; "vienna"; "reston"; "sterling";
    "annandale"; "falls church"; "tysons"; "leesburg"; "herndon"; "mclean";
    "springfield"; "burke"; "woodbridge"; "manassas";
    "bethesda"; "rockville"; "silver spring"; "takoma park"; "college park";
    "hyattsville"; "gaithersburg"; "germantown"; "wheaton"; "kensington";
    "chevy chase"; "potomac"; "bowie"; "laurel"; "greenbelt"; "riverdale";
    "northern virginia"; "nova"; "maryland"; "virginia" ].

Definition extractLocationFromName (groupName : option string) : option string :=
  match groupName with
  | None => None
  | Some groupName =>
      if negb (truthy groupName) then None
      else
        let name := toLowerCase groupName in
        find (fun location => includes name location) locationKeywords
  end.

(** The six candidate fields, in the order of the array literal. *)
Definition locationCandidates (attributes : Attributes.t) : list (option string) :=
  [ Attributes.location_type_preference attributes;
    Attributes.location attributes;
    Attributes.contact_info attributes;
    Attributes.church_center_url_location attributes;
    Attributes.address attributes;
    Attributes.meeting_location attributes ].

(** The test that sends [extractLocation] to the group's name. *)
Definition noInfo (locationString : string) : bool :=
  negb (truthy locationString) ||
  (trim locationString =? "") ||
  (toLowerCase locationString =? "dmv area") ||
  (toLowerCase locationString =? "contact for location") ||
  includes (toLowerCase locationString) "varies".

(** The test that sends [extractLocation] to the geocoder. *)
Definition meaningful (locationString : string) : bool :=
  truthy locationString &&
  negb (trim locationString =? "") &&
  negb (toLowerCase locationString =? "dmv area") &&
  negb (toLowerCase locationString =? "contact for location") &&
  negb (includes (toLowerCase locationString) "varies").

(** The value of the variable [locationString] once the name has been
    consulted (what the code logs as [selected_location]). *)
Definition selectedLocation (attributes : Attributes.t) : string :=
  let locationOptions := filterBoolean (locationCandidates attributes) in
  let locationString := hd "" locationOptions in
  if noInfo locationString then
    orElse (extractLocationFromName (Attributes.name attributes)) locationString
  else locationString.

Definition extractLocation (attributes : Attributes.t) : M Location.t :=
  let locationString := selectedLocation attributes in
  if meaningful locationString then
    let* coordinates := geocodeLocation locationString in
    ret {| Location.address := locationString;
           Location.neighborhood := extractNeighborhood locationString;
           Location.coordinates := Some coordinates;
           Location.hasSpecificLocation := true |}
  else
    ret {| Location.address := "Contact for meeting location";
           Location.neighborhood := "DMV Area";
           Location.coordinates := None;
           Location.hasSpecificLocation := false |}.

(** *** Processing of a fetched batch *)

Definition processGroup (group : RawGroup) : M GroupRecord :=
  let attributes := attributesOf group in
  let* location := extractLocation attributes in
  let groupType := determineGroupType attributes in
  ret {| id := raw_id group;
         name := orElse (Attributes.name attributes) "Unnamed Group";
         description := orElse (Attributes.description attributes) "";
         groupType := groupType;
         location := location;
         meetingDay := orElse (Attributes.schedule attributes) "Contact for details";
         contactInfo := orElse (Attributes.contact_email attributes) "";
         coordinates := Location.coordinates location;
         memberCount := orElseZ (Attributes.memberships_count attributes) 0;
         isActive := match Attributes.archived attributes with
                     | Some false => true
                     | _ => false
                     end;
         lastUpdated := Attributes.updated_at attributes |}.

Definition processGroups (rawGroups : list RawGroup) : M (list GroupRecord) :=
  let* mapped := mapM processGroup rawGroups in
  ret (filter (fun group => isActive group) mapped).

(** *** Geographic distributor *)

Record DistributionPoint : Type := {
  point_name : string;
  point_coords : Coords
}.

Definition distributionPoints : list DistributionPoint :=
  [ {| point_name := "Dupont Circle"; point_coords := (38.9097, -77.0365) |};
    {| point_name := "Arlington"; point_coords := (38.8816, -77.0910) |};
    {| point_name := "Columbia Heights"; point_coords := (38.9289, -77.0353) |};
    {| point_name := "Bethesda"; point_coords := (38.9807, -77.1010) |};
    {| point_name := "Alexandria"; point_coords := (38.8048, -77.0469) |};
    {| point_name := "Silver Spring"; point_coords := (38.9907, -77.0261) |};
    {| point_name := "Capitol Hill"; point_coords := (38.8903, -76.9901) |};
    {| point_name := "Fairfax"; point_coords := (38.8462, -77.3064) |};
    {| point_name := "Georgetown"; point_coords := (38.9076, -77.0723) |};
    {| point_name := "Adams Morgan"; point_coords := (38.9220, -77.0420) |};
    {| point_name := "Rockville"; point_coords := (39.0840, -77.1528) |};
    {| point_name := "Takoma Park"; point_coords := (38.9779, -77.0074) |} ]%Q.

(** [distributionPoints[i]]; the index is always in range in the code below,
    where it is reduced modulo the length. *)
Definition pointAt (i : nat) : DistributionPoint :=
  nth i distributionPoints
      {| point_name := ""; point_coords := (0, 0)%Q |}.

(** The callback of [groups.map], with the captured variable
    [distributionIndex] passed in and handed back. *)
Definition distributeGroup (distributionIndex : nat) (group : GroupRecord)
  : M (GroupRecord * nat) :=
  match coordinates group with
  | Some _ => ret (group, distributionIndex)
  | None =>
      let point := pointAt (distributionIndex mod List.length distributionPoints) in
      let distributionIndex := S distributionIndex in
      let* locationCoordinates :=
        addRandomOffset (CoordPair (fst (point_coords point)) (snd (point_coords point))) in
      let* groupCoordinates :=
        addRandomOffset (CoordPair (fst (point_coords point)) (snd (point_coords point))) in
      ret ({| id := id group;
              name := name group;
              description := description group;
              groupType := groupType group;
              location :=
                {| Location.address := point_name point ++ " area";
                   Location.neighborhood := point_name point;
                   Location.coordinates := Some locationCoordinates;
                   Location.hasSpecificLocation := true |};
              meetingDay := meetingDay group;
              contactInfo := contactInfo group;
              coordinates := Some groupCoordinates;
              memberCount := memberCount group;
              isActive := isActive group;
              lastUpdated := lastUpdated group |},
           distributionIndex)
  end.

Fixpoint distributeFrom (distributionIndex : nat) (groups : list GroupRecord)
  : M (list GroupRecord) :=
  match groups with
  | [] => ret []
  | group :: rest =>
      let* r := distributeGroup distributionIndex group in
      let* rest' := distributeFrom (snd r) rest in
      ret (fst r :: rest')
  end.

Definition distributeGroupsGeographically (groups : list GroupRecord)
  : M (list GroupRecord) :=
  let distributionIndex := 0%nat in
  distributeFrom distributionIndex groups.

(** *** Fallback data *)

Definition fallbackRecord (id name description : string) (groupType : GroupType)
    (address neighborhood : string) (coordinates : Coords)
    (meetingDay : string) (memberCount : Z) : GroupRecord :=
  {| id := id;
     name := name;
     description := description;
     groupType := groupType;
     location := {| Location.address := address;
                    Location.neighborhood := neighborhood;
                    Location.coordinates := None;
                    Location.hasSpecificLocation := true |};
     coordinates := Some coordinates;
     meetingDay := meetingDay;
     contactInfo := "Contact church for details";
     memberCount := memberCount;
     isActive := true;
     lastUpdated := None |}.

(** The array literal that [getFallbackGroups] returns. *)
Definition fallbackGroups : list GroupRecord :=
      [ fallbackRecord "fallback-1" "Dupont Circle Community Group"
          "Weekly gathering for authentic community and spiritual growth"
          community "Dupont Circle, DC" "Dupont Circle"
          (38.9097, -77.0365)%Q "Wednesday evenings" 12;
        fallbackRecord "fallback-2" "Young Adult Professionals"
          "Affinity group for young professionals navigating faith and career"
          affinity "Arlington, VA" "Arlington"
          (38.8816, -77.0910)%Q "Tuesday evenings" 8;
        fallbackRecord "fallback-3" "Columbia Heights Community Group"
          "Diverse community group focused on justice and service"
          community "Columbia Heights, DC" "Columbia Heights"
          (38.9289, -77.0353)%Q "Thursday evenings" 15;
        fallbackRecord "fallback-4" "LGBTQ+ Affinity Group"
          "Safe space for LGBTQ+ members and allies"
          affinity "Shaw, DC" "Shaw"
          (38.9129, -77.0218)%Q "Monthly gatherings" 6;
        fallbackRecord "fallback-5" "Bethesda Community Group"
          "Suburban community group for families and individuals"
          community "Bethesda, MD" "Bethesda"
          (38.9807, -77.1010)%Q "Sunday afternoons" 10 ].

Definition getFallbackGroups : M (list GroupRecord) :=
  ret fallbackGroups.

(** *** Fetching *)

(** [data.groups.length] and the use of [data.groups] as an array: the length
    of [undefined] and of [null] cannot be read, and [processGroups] calls
    [rawGroups.map], before anything else, which only an array has (this is
    the error also for a falsy value other than these two). *)
Definition groupsOf (data : JsonValue) : M (list RawGroup) :=
  let* groups := property doc_groups "groups" data in
  match groups with
  | Groups array => ret array
  | Absent => throw (TypeError "Cannot read properties of undefined (reading 'length')")
  | NotAnArray => throw (TypeError "rawGroups.map is not a function")
  end.

(** The [try { ... } catch (error) { ... }] statement of [getGroups]. *)
Definition getGroups_try : Stmt (list GroupRecord) :=
  try_catch
    (const response := fetch (baseURL ++ "/groups") ;;
     if_ (negb (ok response))
       (let errorText := text response in
        throw (HttpError "HTTP" (status response) errorText)) ;;
     const data := response_json response ;;
     const error := property doc_error "error" data ;;
     if_ (truthyOpt error)
       (throw (ErrorMsg (orElse error ""))) ;;
     const groups := groupsOf data ;;
     const processedGroups := processGroups groups ;;
     return_ (distributeGroupsGeographically processedGroups))
    (fun error => return_ getFallbackGroups).

Definition getGroups : M (option (list GroupRecord)) :=
  function
    (return_ getFallbackGroups ;;
     getGroups_try).

(** *** Statistics *)

Record Stats : Type := {
  totalGroups : Z;
  communityGroups : Z;
  affinityGroups : Z;
  totalMembers : Z;
  averageGroupSize : option Z;   (* [None]: the [NaN] of [Math.round(0 / 0)] *)
  locationCoverage : list string
}.

Definition isCommunity (group : GroupRecord) : bool :=
  match groupType group with
  | community => true
  | affinity => false
  end.

Definition isAffinity (group : GroupRecord) : bool :=
  match groupType group with
  | affinity => true
  | community => false
  end.

(** The region that the [if]/[else if] chain of [analyzeLocationCoverage]
    adds for a neighborhood, if any. *)
Definition regionOf (neighborhood : string) : option string :=
  let lower := toLowerCase neighborhood in
  if includes lower "dc" ||
     existsb (fun n => includes lower n)
       [ "dupont circle"; "adams morgan"; "capitol hill"; "columbia heights"; "shaw" ]
  then Some "Washington DC"
  else if existsb (fun n => includes lower n)
            [ "arlington"; "alexandria"; "fairfax"; "vienna"; "reston" ]
  then Some "Northern Virginia"
  else if existsb (fun n => includes lower n)
            [ "bethesda"; "rockville"; "silver spring"; "takoma park" ]
  then Some "Maryland"
  else None.

Definition analyzeLocationCoverage (groups : list GroupRecord) : list string :=
  fold_left
    (fun coverage group =>
       match regionOf (Location.neighborhood (location group)) with
       | Some region => setAdd region coverage
       | None => coverage
       end)
    groups [].

(** [groups.reduce((sum, g) => sum + g.memberCount, 0)]. *)
Definition sumMembers (groups : list GroupRecord) : Z :=
  fold_left (fun sum g => (sum + memberCount g)%Z) groups 0%Z.

(** [Math.round(total / groups.length)]: the nearest integer, a half rounded
    up; [0 / 0] is [NaN]. *)
Definition roundedAverage (total : Z) (groups : list GroupRecord) : option Z :=
  match groups with
  | [] => None
  | _ :: _ =>
      let n := Z.of_nat (List.length groups) in
      Some ((2 * total + n) / (2 * n))%Z
  end.

(** The object [stats] that [getGroupStats] builds from the groups. *)
Definition statsOf (groups : list GroupRecord) : Stats :=
  {| totalGroups := Z.of_nat (List.length groups);
     communityGroups := Z.of_nat (List.length (filter isCommunity groups));
     affinityGroups := Z.of_nat (List.length (filter isAffinity groups));
     totalMembers := sumMembers groups;
     averageGroupSize := roundedAverage (sumMembers groups) groups;
     locationCoverage := analyzeLocationCoverage groups |}.

(** The object returned by the [catch] of [getGroupStats]. *)
Definition defaultStats : Stats :=
  {| totalGroups := 5;
     communityGroups := 3;
     affinityGroups := 2;
     totalMembers := 51;
     averageGroupSize := Some 10%Z;
     locationCoverage := [ "DC"; "Northern VA"; "Maryland" ] |}.

Definition getGroupStats : M Stats :=
  catching
    (let* groups := getGroups in
     match groups with
     | Some groups => ret (statsOf groups)
     | None =>
         throw (TypeError "Cannot read properties of undefined (reading 'length')")
     end)
    (fun error => ret defaultStats).

End PlanningCenterAPI.

(** ** The Netlify function: requests and answers *)

(** What the handler reads of the event. *)
Record Event : Type := {
  httpMethod : string;
  path : string
}.

(** What the handler reads of the process: the environment variables and the
    clock of [new Date().toISOString()]. *)
Record Process : Type := {
  PLANNING_CENTER_CLIENT_ID : option string;
  PLANNING_CENTER_APP_ID : option string;
  PLANNING_CENTER_SECRET : option string;
  now : string
}.

(** The bodies the handler sends; the last two stand for the JSON text of
    the object. In [ErrorBody], [details] is the error whose message is
    sent. *)
Inductive Body : Type :=
| EmptyBody
| ErrorBody (error : string) (details : option Error)
| GroupsBody (groups : list RawGroup) (lastUpdated : string).

Record HttpAnswer : Type := {
  statusCode : Z;
  headers : list (string * string);
  body : Body
}.

Definition corsHeaders : list (string * string) :=
  [ ("Access-Control-Allow-Origin", "*");
    ("Access-Control-Allow-Headers", "Content-Type");
    ("Access-Control-Allow-Methods", "GET, OPTIONS") ].

(** The text of [!!value] inside a template literal. *)
Definition showBool (b : bool) : string := if b then "true" else "false".

(** The path of the function, which the handler strips from [event.path]. *)
Definition functionPath : string := "/.netlify/functions/planning-center".

(** ** The proxy function, [netlify/functions/planning-center.js] *)

Module Proxy.

Import JS.

Definition apiUrl : string := "https://api.planningcenteronline.com/groups/v2/groups".

Definition processGroupData (group : RawGroup) : RawGroup :=
  let attributes := attributesOf group in
  {| raw_id := raw_id group;
     attributes := Some
       {| Attributes.name := Some (orElse (Attributes.name attributes) "Unnamed Group");
          Attributes.description := Some (orElse (Attributes.description attributes) "");
          Attributes.location :=
            Some (orElse (Attributes.location_type_preference attributes) "DMV Area");
          Attributes.schedule :=
            Some (orElse (Attributes.schedule attributes) "Contact for details");
          Attributes.contact_email := Some (orElse (Attributes.contact_email attributes) "");
          Attributes.public_url :=
            Some (orElse (Attributes.public_church_center_web_url attributes) "");
          Attributes.memberships_count :=
            Some (orElseZ (Attributes.memberships_count attributes) 0);
          Attributes.archived := Some (orElseBool (Attributes.archived attributes) false);
          Attributes.updated_at := Attributes.updated_at attributes;
          Attributes.group_type := Some (orElse (Attributes.group_type attributes) "");
          Attributes.enrollment := Some (orElse (Attributes.enrollment attributes) "open");
          Attributes.location_type_preference := None;
          Attributes.contact_info := None;
          Attributes.church_center_url_location := None;
          Attributes.address := None;
          Attributes.meeting_location := None;
          Attributes.public_church_center_web_url := None |} |}.

(** The predicate of [groups.filter]. *)
Definition keep (group : RawGroup) : bool :=
  let attributes := attributesOf group in
  notOpt (Attributes.archived attributes) &&
  truthyOpt (Attributes.public_church_center_web_url attributes) &&
  match Attributes.enrollment attributes with
  | Some e => e =? "open"
  | None => false
  end.

Definition fetchGroups (clientId secret : string) : M (list RawGroup) :=
  fun E st =>
    match
      (let* response := fetch apiUrl in
       if negb (ok response) then
         let errorText := text response in
         throw (HttpError "Planning Center API error:" (status response) errorText)
       else
         let* responseData := response_json response in
         let* data := property doc_data "data" responseData in
         let groups := orEmptyArray data in
         let* kept := array_filter keep groups in
         let processedGroups := map processGroupData kept in
         ret processedGroups) E st
    with
    | (Throw error, st') => (Throw error, st')   (* catch (error) { throw error } *)
    | r => r
    end.

(** The [try] block of the handler. *)
Definition handler_try (process : Process) (event : Event) : Stmt HttpAnswer :=
  let CLIENT_ID := PLANNING_CENTER_CLIENT_ID process in
  let SECRET := PLANNING_CENTER_SECRET process in
  if_ (negb (truthyOpt CLIENT_ID) || negb (truthyOpt SECRET))
    (throw (ErrorMsg ("Missing Planning Center API credentials. CLIENT_ID: "
                      ++ showBool (truthyOpt CLIENT_ID)
                      ++ ", SECRET: " ++ showBool (truthyOpt SECRET)))) ;;
  let path := removeFirst (path event) functionPath in
  const data :=
    (if (path =? "/groups") || (path =? "/groups/")
     then fetchGroups (orElse CLIENT_ID "") (orElse SECRET "")
     else throw (ErrorMsg ("Unknown endpoint: " ++ path))) ;;
  return_ (ret {| statusCode := 200;
                  headers := corsHeaders;
                  body := GroupsBody data (now process) |}).

Definition handler (process : Process) (event : Event) : M (option HttpAnswer) :=
  function
    (if_ (httpMethod event =? "OPTIONS")
       (return_ (ret {| statusCode := 200;
                        headers := corsHeaders;
                        body := EmptyBody |})) ;;
     if_ (negb (httpMethod event =? "GET"))
       (return_ (ret {| statusCode := 405;
                        headers := corsHeaders;
                        body := ErrorBody "Method not allowed" None |})) ;;
     try_catch
       (handler_try process event)
       (fun error =>
          return_ (ret {| statusCode := 500;
                          headers := corsHeaders;
                          body := ErrorBody "Failed to fetch data from Planning Center"
                                            (Some error) |}))).

End Proxy.

(** ** The proxy function, personal-access-token variant *)

Module ProxyPAT.

Import JS.

Definition apiUrl : string := Proxy.apiUrl.

Definition processGroupData (group : RawGroup) : RawGroup :=
  Proxy.processGroupData group.

(** The predicate of [groups.filter]: [hasUrl] and [isOpen] are computed and
    logged, the value returned is [isActive]. *)
Definition keep (group : RawGroup) : bool :=
  let attributes := attributesOf group in
  let isActive := notOpt (Attributes.archived attributes) in
  let hasUrl := truthyOpt (Attributes.public_church_center_web_url attributes) in
  let isOpen :=
    match Attributes.enrollment attributes with
    | Some e => (e =? "open") || (e =? "request_to_join")
    | None => false
    end in
  isActive.

Definition fetchGroups (appId secret : string) : M (list RawGroup) :=
  fun E st =>
    match
      (let* response := fetch apiUrl in
       if negb (ok response) then
         let errorText := text response in
         throw (HttpError "Planning Center API error:" (status response) errorText)
       else
         let* responseData := response_json response in
         let* data := property doc_data "data" responseData in
         let groups := orEmptyArray data in
         let* kept := array_filter keep groups in
         let processedGroups := map processGroupData kept in
         ret processedGroups) E st
    with
    | (Throw error, st') => (Throw error, st')
    | r => r
    end.

(** The [try] block of the handler. *)
Definition handler_try (process : Process) (event : Event) : Stmt HttpAnswer :=
  let PAT_APP_ID := PLANNING_CENTER_APP_ID process in
  let PAT_SECRET := PLANNING_CENTER_SECRET process in
  if_ (negb (truthyOpt PAT_APP_ID) || negb (truthyOpt PAT_SECRET))
    (throw (ErrorMsg ("Missing Planning Center PAT credentials. APP_ID: "
                      ++ showBool (truthyOpt PAT_APP_ID)
                      ++ ", SECRET: " ++ showBool (truthyOpt PAT_SECRET)))) ;;
  let path := removeFirst (path event) functionPath in
  const data :=
    (if (path =? "/groups") || (path =? "/groups/")
     then fetchGroups (orElse PAT_APP_ID "") (orElse PAT_SECRET "")
     else throw (ErrorMsg ("Unknown endpoint: " ++ path))) ;;
  return_ (ret {| statusCode := 200;
                  headers := corsHeaders;
                  body := GroupsBody data (now process) |}).

Definition handler (process : Process) (event : Event) : M (option HttpAnswer) :=
  function
    (if_ (httpMethod event =? "OPTIONS")
       (return_ (ret {| statusCode := 200;
                        headers := corsHeaders;
                        body := EmptyBody |})) ;;
     if_ (negb (httpMethod event =? "GET"))
       (return_ (ret {| statusCode := 405;
                        headers := corsHeaders;
                        body := ErrorBody "Method not allowed" None |})) ;;
     try_catch
       (handler_try process event)
       (fun error =>
          return_ (ret {| statusCode := 500;
                          headers := corsHeaders;
                          body := ErrorBody "Failed to fetch data from Planning Center"
                                            (Some error) |}))).

End ProxyPAT.

(** ** The client with the basic geocoder

    The second definition of the class [PlanningCenterAPI] in the file: no
    jitter, no inference from the name, no distribution. Its classifier and
    its [extractNeighborhood] are those of the first definition. *)

Module PlanningCenterAPIBasic.

Import JS.

Module Location.
Record t : Type := mk {
  address : string;
  neighborhood : string;
  coordinates : Coords
}.
End Location.

Record Group : Type := {
  id : string;
  name : string;
  description : string;
  groupType : GroupType;
  location : Location.t;
  meetingDay : string;
  contactInfo : string;
  coordinates : option Coords;   (* [None]: the record has no such property *)
  memberCount : Z;
  isActive : bool;
  lastUpdated : option string
}.

Definition baseURL : string := "/.netlify/functions/planning-center".

Definition determineGroupType (attributes : Attributes.t) : GroupType :=
  PlanningCenterAPI.determineGroupType attributes.

Definition extractNeighborhood (locationString : string) : string :=
  PlanningCenterAPI.extractNeighborhood locationString.

Definition dmvLocations : list (string * Coords) :=
  [ ("dupont circle", (38.9097, -77.0365));
    ("adams morgan", (38.9220, -77.0420));
    ("capitol hill", (38.8903, -76.9901));
    ("columbia heights", (38.9289, -77.0353));
    ("shaw", (38.9129, -77.0218));
    ("petworth", (38.9369, -77.0249));
    ("brookland", (38.9339, -76.9956));
    ("anacostia", (38.8622, -76.9810));
    ("arlington", (38.8816, -77.0910));
    ("alexandria", (38.8048, -77.0469));
    ("fairfax", (38.8462, -77.3064));
    ("vienna", (38.9012, -77.2653));
    ("reston", (38.9687, -77.3411));
    ("sterling", (39.0068, -77.4286));
    ("bethesda", (38.9807, -77.1010));
    ("rockville", (39.0840, -77.1528));
    ("silver spring", (38.9907, -77.0261));
    ("takoma park", (38.9779, -77.0074));
    ("college park", (38.9897, -76.9378));
    ("hyattsville", (38.9551, -76.9455)) ]%Q.

Definition geocodeLocation (locationString : string) : Coords :=
  let location := toLowerCase locationString in
  match find (fun entry => includes location (fst entry)) dmvLocations with
  | Some (place, coords) => coords
  | None => (38.9072, -77.0369)%Q
  end.

Definition extractLocation (attributes : Attributes.t) : Location.t :=
  let locationString :=
    orElse (Attributes.location_type_preference attributes)
           (orElse (Attributes.location attributes) "DMV Area") in
  let coordinates := geocodeLocation locationString in
  {| Location.address := locationString;
     Location.neighborhood := extractNeighborhood locationString;
     Location.coordinates := coordinates |}.

Definition processGroup (group : RawGroup) : Group :=
  let attributes := attributesOf group in
  let location := extractLocation attributes in
  let groupType := determineGroupType attributes in
  {| id := raw_id group;
     name := orElse (Attributes.name attributes) "Unnamed Group";
     description := orElse (Attributes.description attributes) "";
     groupType := groupType;
     location := location;
     meetingDay := orElse (Attributes.schedule attributes) "Contact for details";
     contactInfo := orElse (Attributes.contact_email attributes) "";
     coordinates := Some (Location.coordinates location);
     memberCount := orElseZ (Attributes.memberships_count attributes) 0;
     isActive := match Attributes.archived attributes with
                 | Some false => true
                 | _ => false
                 end;
     lastUpdated := Attributes.updated_at attributes |}.

Definition processGroups (rawGroups : list RawGroup) : list Group :=
  filter (fun group => isActive group &&
                       match coordinates group with
                       | Some _ => true
                       | None => false
                       end)
         (map processGroup rawGroups).

Definition fallbackRecord (id name description : string) (groupType : GroupType)
    (address neighborhood : string) (coordinates : Coords)
    (meetingDay : string) (memberCount : Z) : Group :=
  {| id := id;
     name := name;
     description := description;
     groupType := groupType;
     location := {| Location.address := address;
                    Location.neighborhood := neighborhood;
                    Location.coordinates := coordinates |};
     meetingDay := meetingDay;
     contactInfo := "Contact church for details";
     coordinates := None;
     memberCount := memberCount;
     isActive := true;
     lastUpdated := None |}.

(** The array literal that [getFallbackGroups] returns. *)
Definition fallbackGroups : list Group :=
  [ fallbackRecord "fallback-1" "Dupont Circle Community Group"
      "Weekly gathering for authentic community and spiritual growth"
      community "Dupont Circle, DC" "Dupont Circle"
      (38.9097, -77.0365)%Q "Wednesday evenings" 12;
    fallbackRecord "fallback-2" "Young Adult Professionals"
      "Affinity group for young professionals navigating faith and career"
      affinity "Arlington, VA" "Arlington"
      (38.8816, -77.0910)%Q "Tuesday evenings" 8;
    fallbackRecord "fallback-3" "Columbia Heights Community Group"
      "Diverse community group focused on justice and service"
      community "Columbia Heights, DC" "Columbia Heights"
      (38.9289, -77.0353)%Q "Thursday evenings" 15;
    fallbackRecord "fallback-4" "LGBTQ+ Affinity Group"
      "Safe space for LGBTQ+ members and allies"
      affinity "Shaw, DC" "Shaw"
      (38.9129, -77.0218)%Q "Monthly gatherings" 6;
    fallbackRecord "fallback-5" "Bethesda Community Group"
      "Suburban community group for families and individuals"
      community "Bethesda, MD" "Bethesda"
      (38.9807, -77.1010)%Q "Sunday afternoons" 10 ].

Definition getFallbackGroups : M (list Group) :=
  ret fallbackGroups.

Definition getGroups : M (list Group) :=
  catching
    (let* response := fetch (baseURL ++ "/groups") in
     if negb (ok response) then
       let errorText := text response in
       throw (HttpError "HTTP" (status response) errorText)
     else
       let* data := response_json response in
       let* error := property doc_error "error" data in
       if truthyOpt error then
         throw (ErrorMsg (orElse error ""))
       else
         let* groups := PlanningCenterAPI.groupsOf data in
         ret (processGroups groups))
    (fun error => getFallbackGroups).

End PlanningCenterAPIBasic.

(** * Properties *)

Import JS PlanningCenterAPI.

(** ** Vocabulary of the statements *)

(** [t] occurs in [s] as a contiguous substring. *)
Definition occursIn (t s : string) : Prop :=
  exists pre post, s = (pre ++ t ++ post)%string.

(** The state once [n] more random values have been drawn. *)
Definition afterDraws (st : State) (n : nat) : State :=
  {| requests := requests st; drawn := drawn st + n |}.

(** The draws of the environment are those of [Math.random]: in [0, 1). *)
Definition randomInUnit (E : Env) : Prop :=
  forall n, (0 <= random E n /\ random E n < 1)%Q.

(** The number that the numeral 0.0036 denotes; it lies below 0.0036. *)
Definition jitterBound : Q := Binary64.round 0.0036.

(** Half the distance between neighbouring numbers from 64 to 128. *)
Definition roundingSlack : Q := Binary64.pow2 (-47).

(** How far from its source a jittered coordinate can lie: 0.0036 degrees
    and the rounding of one sum. *)
Definition reach : Q := (0.0036 + roundingSlack)%Q.

(** The numbers that the numerals of a coordinate pair denote. *)
Definition numbers (c : Coords) : Coords :=
  (Binary64.round (fst c), Binary64.round (snd c)).

(** [c] lies within [reach] of the numbers of [source] on both axes. *)
Definition within (c source : Coords) : Prop :=
  (Qabs (fst c - fst (numbers source)) <= reach /\
   Qabs (snd c - snd (numbers source)) <= reach)%Q.

(** An environment without network whose every draw is 0. *)
Definition zeroDraws : Env :=
  {| network := fun _ => Rejected; random := fun _ => 0%Q |}.

(** An attribute bag that holds a name and a description and nothing else. *)
Definition namedAndDescribed (n d : string) : Attributes.t :=
  Attributes.mk (Some n) (Some d) None None None None None None None None None
                None None None None None None.

(** The anchor that the order (a) exact match, (b) first partial match in
    either direction, (c) state keyword, (d) DC centre selects for a
    lower-cased, trimmed string, written after the specification. *)
Definition specAnchor (location : string) : Coords :=
  match ownProperty dmvLocations location with
  | Some c => c
  | None =>
      match find (fun entry => includes location (fst entry)
                               || includes (fst entry) location) dmvLocations with
      | Some (_, c) => c
      | None =>
          if includes location "virginia" || includes location "va"
          then (38.8816, -77.0910)%Q
          else if includes location "maryland" || includes location "md"
          then (38.9907, -77.0261)%Q
          else (38.9072, -77.0369)%Q
      end
  end.

(** [!group.coordinates]. *)
Definition lacksCoordinates (group : GroupRecord) : bool :=
  match coordinates group with
  | Some _ => false
  | None => true
  end.

(** How many records of a list have no coordinates. *)
Definition missing (groups : list GroupRecord) : nat :=
  List.length (filter lacksCoordinates groups).

(** The record that [distributeGroupsGeographically] builds from [group] for
    the anchor [point] when [d] values have been drawn so far: its coordinates
    are the anchor's, jittered with draws [d + 2] and [d + 3] (draws [d] and
    [d + 1] jitter the copy kept in [location]). *)
Definition distributed (E : Env) (group : GroupRecord) (point : DistributionPoint)
    (d : nat) : GroupRecord :=
  {| id := id group;
     name := name group;
     description := description group;
     groupType := groupType group;
     location :=
       {| Location.address := point_name point ++ " area";
          Location.neighborhood := point_name point;
          Location.coordinates :=
            Some (offsetBy (fst (point_coords point)) (snd (point_coords point))
                           (random E d) (random E (d + 1)));
          Location.hasSpecificLocation := true |};
     meetingDay := meetingDay group;
     contactInfo := contactInfo group;
     coordinates :=
       Some (offsetBy (fst (point_coords point)) (snd (point_coords point))
                      (random E (d + 2)) (random E (d + 3)));
     memberCount := memberCount group;
     isActive := isActive group;
     lastUpdated := lastUpdated group |}.

(** What the pass started at counter [distributionIndex] returns at position
    [i]. *)
Definition distributedAt (E : Env) (st : State) (distributionIndex : nat)
    (groups : list GroupRecord) (i : nat) (group : GroupRecord) : GroupRecord :=
  if lacksCoordinates group
  then distributed E group
         (pointAt ((distributionIndex + missing (firstn i groups)) mod 12))
         (drawn st + 4 * missing (firstn i groups))
  else group.

(** An environment without network whose every draw is 0.5. *)
Definition halfDraws : Env :=
  {| network := fun _ => Rejected; random := fun _ => 0.5%Q |}.

(** The state of a fresh page: nothing requested, nothing drawn. *)
Definition initialState : State := {| requests := []; drawn := 0 |}.

(** [group.coordinates] is not [null]. *)
Definition hasCoordinates (group : GroupRecord) : Prop :=
  coordinates group <> None.

(** The ways the client's fetch fails: the network rejects, the status is not
    OK, or the proxy's answer has an [error] field. *)
Definition fetchFails (E : Env) : Prop :=
  match network E (baseURL ++ "/groups") with
  | Rejected => True
  | Resolved response =>
      ok response = false \/
      exists data,
        json response = Some (JsonObject data) /\ truthyOpt (doc_error data) = true
  end.

(** The state once [url] has been requested. *)
Definition afterRequest (st : State) (url : string) : State :=
  {| requests := url :: requests st; drawn := drawn st |}.

(** [attributes.archived === false] on a raw group. *)
Definition activeRaw (group : RawGroup) : bool :=
  match Attributes.archived (attributesOf group) with
  | Some false => true
  | _ => false
  end.

(** A raw group that is active and names no place anywhere. *)
Definition placelessGroup : RawGroup :=
  {| raw_id := "42";
     attributes := Some
       (Attributes.mk (Some "Supper Club") (Some "Shared meals") None
          (Some "DMV Area") None None None None None None None None None
          (Some false) None None None) |}.

(** An active group located at "Constructor". *)
Definition constructorGroup : RawGroup :=
  {| raw_id := "1";
     attributes := Some
       (Attributes.mk (Some "Builders") None None (Some "Constructor")
          None None None None None None None None None (Some false)
          None None None) |}.

(** The record returned when no location is known. *)
Definition noLocation : Location.t :=
  {| Location.address := "Contact for meeting location";
     Location.neighborhood := "DMV Area";
     Location.coordinates := None;
     Location.hasSpecificLocation := false |}.

(** The record returned for a location string and its geocoded coordinates. *)
Definition locatedAt (locationString : string) (c : Coords) : Location.t :=
  {| Location.address := locationString;
     Location.neighborhood := extractNeighborhood locationString;
     Location.coordinates := Some c;
     Location.hasSpecificLocation := true |}.

(** The choice the specification describes: the first candidate that is a
    non-empty string and no "no info" sentinel, and the keyword found in the
    name only when no candidate qualifies. *)
Definition specSelectedLocation (attributes : Attributes.t) : option string :=
  match find (fun candidate => negb (noInfo candidate))
             (filterBoolean (locationCandidates attributes)) with
  | Some candidate => Some candidate
  | None => extractLocationFromName (Attributes.name attributes)
  end.

(** A group whose first location field is a sentinel and whose second one
    names a place. *)
Definition sentinelThenPlace : Attributes.t :=
  Attributes.mk (Some "Supper Club") None (Some "DMV Area") (Some "Bethesda, MD")
    None None None None None None None None None (Some false) None None None.

(** The group of the specification's example: no field names a place, the
    name does. *)
Definition arlingtonByName : Attributes.t :=
  Attributes.mk (Some "Arlington Young Professionals") None (Some "DMV Area")
    (Some "") None None None None None None None None None (Some false)
    None None None.

(** The data array of an upstream answer, [responseData.data || []], when
    the body is not [null] and the value is an array. *)
Definition fetchedGroups (responseData : JsonValue) : option (list RawGroup) :=
  match responseData with
  | JsonNull => None
  | JsonObject doc =>
      match doc_data doc with
      | Absent => Some []
      | Groups groups => Some groups
      | NotAnArray => None
      end
  end.

(** The error of [fetchGroups] on a body without such an array. *)
Definition unreadable (responseData : JsonValue) : Error :=
  match responseData with
  | JsonNull => TypeError "Cannot read properties of null (reading 'data')"
  | JsonObject _ => TypeError "groups.filter is not a function"
  end.

(** [attributes.archived] is not [true]. *)
Definition notArchived (group : RawGroup) : bool :=
  match Attributes.archived (attributesOf group) with
  | Some true => false
  | _ => true
  end.

(** [attributes.archived] is not [true], the public Church Center URL is a
    non-empty string and the enrollment is "open". *)
Definition openAndPublished (group : RawGroup) : bool :=
  notArchived group &&
  match Attributes.public_church_center_web_url (attributesOf group) with
  | Some url => negb (url =? "")
  | None => false
  end &&
  match Attributes.enrollment (attributesOf group) with
  | Some enrollment => enrollment =? "open"
  | None => false
  end.

(** An upstream that answers every request with the given groups. *)
Definition upstream (groups : list RawGroup) : Env :=
  {| network := fun _ =>
       Resolved {| ok := true; status := 200; text := "";
                   json := Some (JsonObject {| doc_error := None;
                                               doc_groups := Absent;
                                               doc_data := Groups groups |}) |};
     random := fun _ => 0.5%Q |}.

(** An active group with a public page whose enrollment is closed. *)
Definition closedGroup : RawGroup :=
  {| raw_id := "7";
     attributes := Some
       (Attributes.mk (Some "Choir") None None None None None None None None None
          (Some "https://example.org/choir") None None (Some false) None None
          (Some "closed")) |}.

(** An active group with a public page and open enrollment. *)
Definition openGroup : RawGroup :=
  {| raw_id := "8";
     attributes := Some
       (Attributes.mk (Some "Shaw Supper") None None None None None None None None
          None (Some "https://example.org/shaw") None None (Some false) None None
          (Some "open")) |}.


(** Two active groups that name no place. *)
Definition twoPlaceless : list RawGroup :=
  [ placelessGroup;
    {| raw_id := "43";
       attributes := Some
         (Attributes.mk (Some "Game Night") None None None None None None None
            None None None None None (Some false) None None None) |} ].

(** The records that [processGroups] makes of [twoPlaceless]. *)
Definition twoPlacelessRecords : list GroupRecord :=
  Eval vm_compute in
    match processGroups twoPlaceless halfDraws initialState with
    | (Normal processed, _) => processed
    | (Throw _, _) => []
    end.

(** The gazetteer key whose entry a keyword of [locationKeywords] is geocoded
    to: the keyword itself, but "arlington" for the three Virginia terms and
    "silver spring" for "maryland", which are no gazetteer keys. *)
Definition resolvedPlace (keyword : string) : string :=
  if existsb (String.eqb keyword) [ "northern virginia"; "nova"; "virginia" ]
  then "arlington"
  else if keyword =? "maryland" then "silver spring"
  else keyword.

(** A proxy that answers every request with the given groups. *)
Definition proxyAnswer (groups : list RawGroup) : Env :=
  {| network := fun _ =>
       Resolved {| ok := true; status := 200; text := "";
                   json := Some (JsonObject {| doc_error := None;
                                               doc_groups := Groups groups;
                                               doc_data := Absent |}) |};
     random := fun _ => 0.5%Q |}.

(** The route test of the handler: [event.path], with the leftmost occurrence
    of the function's path removed, is "/groups" or "/groups/". *)
Definition routeOk (event : Event) : bool :=
  let p := removeFirst (path event) functionPath in
  (p =? "/groups") || (p =? "/groups/").

(** Both credentials of the first proxy variant are non-empty strings. *)
Definition credentialsOk (process : Process) : bool :=
  truthyOpt (PLANNING_CENTER_CLIENT_ID process) &&
  truthyOpt (PLANNING_CENTER_SECRET process).

(** Both credentials of the personal-access-token variant are non-empty
    strings. *)
Definition tokenOk (process : Process) : bool :=
  truthyOpt (PLANNING_CENTER_APP_ID process) &&
  truthyOpt (PLANNING_CENTER_SECRET process).

(** The upstream answered with an OK status and a JSON body other than
    [null] whose [data] is the array [groups], or is absent or falsy with
    [groups] empty. *)
Definition upstreamAnswered (E : Env) (groups : list RawGroup) : Prop :=
  exists response responseData,
    network E Proxy.apiUrl = Resolved response /\
    ok response = true /\ json response = Some responseData /\
    fetchedGroups responseData = Some groups.

(** A process with every credential set. *)
Definition configured : Process :=
  {| PLANNING_CENTER_CLIENT_ID := Some "client";
     PLANNING_CENTER_APP_ID := Some "app";
     PLANNING_CENTER_SECRET := Some "secret";
     now := "2025-07-01T12:00:00.000Z" |}.

(** [l1] is [l2] with some elements left out, in the same order. *)
Inductive Subsequence {A : Type} : list A -> list A -> Prop :=
| Subsequence_nil : Subsequence [] []
| Subsequence_keep x l1 l2 : Subsequence l1 l2 -> Subsequence (x :: l1) (x :: l2)
| Subsequence_skip x l1 l2 : Subsequence l1 l2 -> Subsequence l1 (x :: l2).

(** A GET request for the groups, as Netlify passes it to the function. *)
Definition groupsRequest : Event :=
  {| httpMethod := "GET"; path := "/.netlify/functions/planning-center/groups" |}.

(** The three regions that [analyzeLocationCoverage] can report. *)
Definition regions : list string :=
  [ "Washington DC"; "Northern Virginia"; "Maryland" ].

(** No character of the string is a comma. *)
Fixpoint commaFree (s : string) : bool :=
  match s with
  | EmptyString => true
  | String c s' => negb (Ascii.eqb c ",") && commaFree s'
  end.

(** The string is empty or starts with a character that is no white space. *)
Definition startsClean (s : string) : bool :=
  match s with
  | EmptyString => true
  | String c _ => negb (isWhiteSpace c)
  end.


(** Both numerals of a pair lie between -100 and 100, as the latitudes and
    longitudes of the tables do. *)
Definition inRange (c : Coords) : bool :=
  Qle_bool (-100) (fst c) && Qle_bool (fst c) 100 &&
  Qle_bool (-100) (snd c) && Qle_bool (snd c) 100.

(** The number that follows 0.5: [0.5 + 2^-53]. *)
Definition nextToHalf : Q := (4503599627370497 # 9007199254740992)%Q.

(** The rational that a floating-point number of the prover holds; these
    numbers are binary64 values with the arithmetic of the processor. *)
Definition ofFloat (x : PrimFloat.float) : option Q :=
  match FloatOps.Prim2SF x with
  | SpecFloat.S754_zero _ => Some 0%Q
  | SpecFloat.S754_finite s m e =>
      Some (Qred ((if s then -1 else 1) * inject_Z (Zpos m) * Binary64.pow2 e))
  | _ => None
  end.

(** The floating-point number of the prover that holds a binary64 value. *)
Definition toFloat (x : Q) : PrimFloat.float :=
  let e := (- Z.log2 (Zpos (Qden (Qred x))))%Z in
  FloatOps.SF2Prim
    match Qnum (Qred x) with
    | Z0 => SpecFloat.S754_zero false
    | Zpos m => SpecFloat.S754_finite false m e
    | Zneg m => SpecFloat.S754_finite true m e
    end.

(** [x + (r - 0.5) * 0.0072] on the floating-point numbers of the prover. *)
Definition floatOffset (x r : Q) : option Q :=
  ofFloat
    (PrimFloat.add (toFloat (Binary64.round x))
       (PrimFloat.mul (PrimFloat.sub (toFloat r) (toFloat 0.5))
                      (toFloat (Binary64.round 0.0072)))).

(** The offset of [Binary64] and that of the floating-point numbers of the
    prover are the same number. *)
Definition agrees (x r : Q) : bool :=
  match floatOffset x r with
  | Some y => Qeq_bool y (Binary64.add (Binary64.round x) (jitter r))
  | None => false
  end.

(** Draws at the ends of [0, 1), around its middle and in between. *)
Definition sampleDraws : list Q :=
  [ 0; 1 # 9007199254740992; 1 # 4; 4503599627370495 # 9007199254740992; 1 # 2;
    nextToHalf; 3 # 4; 9007199254740991 # 9007199254740992 ]%Q.

(** ** Substrings *)

Lemma prefix_iff (t s : string) :
  String.prefix t s = true <-> exists post, s = (t ++ post)%string.
Proof.
  revert s; induction t as [|c t IH]; intros s; simpl.
  - split; [intros _; now exists s | now destruct s].
  - destruct s as [|d s].
    + split; [discriminate | intros [post H]; discriminate].
    + simpl. destruct (ascii_dec c d) as [->|ne].
      * rewrite IH. split; intros [post H]; exists post; congruence.
      * split; [discriminate | intros [post H]; congruence].
Qed.

Lemma includes_unfold (s t : string) :
  includes s t =
  String.prefix t s ||
  match s with
  | EmptyString => false
  | String _ s' => includes s' t
  end.
Proof. destruct s; reflexivity. Qed.

Lemma includes_iff (s t : string) :
  includes s t = true <-> occursIn t s.
Proof.
  unfold occursIn. split.
  - induction s as [|c s IH]; rewrite includes_unfold, orb_true_iff; intros [H|H].
    + apply prefix_iff in H. destruct H as [post ->]. now exists "", post.
    + discriminate.
    + apply prefix_iff in H. destruct H as [post H]. now exists "", post.
    + destruct (IH H) as (pre & post & ->). now exists (String c pre), post.
  - intros (pre & post & ->).
    induction pre as [|c pre IH].
    + rewrite includes_unfold.
      assert (H : String.prefix t (t ++ post) = true) by (apply prefix_iff; now exists post).
      simpl append. now rewrite H.
    + change (String c pre ++ t ++ post)%string with (String c (pre ++ t ++ post)).
      rewrite includes_unfold. cbv beta iota. rewrite IH. apply orb_true_r.
Qed.

Lemma includes_false_iff (s t : string) :
  includes s t = false <-> ~ occursIn t s.
Proof.
  rewrite <- includes_iff. destruct (includes s t); split; congruence.
Qed.

(** ** Binary64 arithmetic *)

Module Binary64Facts.

Import Binary64.

Local Open Scope Q_scope.

(** *** Powers of two and binades *)

Lemma pow2_pos k : 0 < pow2 k.
Proof. apply Qpower_0_lt. reflexivity. Qed.

Lemma pow2_le a b : (a <= b)%Z -> pow2 a <= pow2 b.
Proof. intros H. apply Qpower_le_compat_l; [exact H|]. discriminate. Qed.

Lemma pow2_lt_inv a b : pow2 a < pow2 b -> (a < b)%Z.
Proof. intros H. eapply Qpower_lt_compat_l_inv; [exact H|reflexivity]. Qed.

Lemma pow2_add a b : pow2 (a + b) == pow2 a * pow2 b.
Proof. apply Qpower_plus. discriminate. Qed.

Lemma pow2_Z k : (0 <= k)%Z -> pow2 k == inject_Z (2 ^ k).
Proof. intros H. unfold pow2. rewrite Zpower_Qpower by exact H. reflexivity. Qed.

Lemma binade_le x : ~ x == 0 -> pow2 (binade x) <= Qabs x.
Proof.
  intros Hx. unfold binade.
  set (e := (Z.log2 (Z.abs (Qnum x)) - Z.log2 (Z.pos (Qden x)))%Z).
  destruct (Qle_bool (pow2 e) (Qabs x)) eqn:Hb.
  - now apply Qle_bool_iff.
  - destruct x as [n d]. cbn [Qnum Qden] in e.
    assert (Hn : (0 < Z.abs n)%Z).
    { destruct n; [exfalso; apply Hx; reflexivity|lia|lia]. }
    pose proof (Z.log2_spec _ Hn) as [Hn1 _].
    pose proof (Z.log2_spec (Z.pos d) eq_refl) as [_ Hd2].
    pose proof (Z.log2_nonneg (Z.abs n)) as Hln.
    pose proof (Z.log2_nonneg (Z.pos d)) as Hld.
    set (ln := Z.log2 (Z.abs n)) in *. set (ld := Z.log2 (Z.pos d)) in *.
    replace (e - 1)%Z with (ln - Z.succ ld)%Z by (unfold e; lia).
    unfold pow2. rewrite Qpower_minus by discriminate.
    fold (pow2 ln) (pow2 (Z.succ ld)). rewrite !pow2_Z by lia.
    rewrite <- Zabs_Qabs. rewrite (Qmake_Qdiv (Z.abs n) d).
    assert (H2 : (0 < 2 ^ Z.succ ld)%Z) by (apply Z.pow_pos_nonneg; lia).
    apply Qle_shift_div_l.
    { change 0 with (inject_Z 0). rewrite <- Zlt_Qlt. reflexivity. }
    unfold Qdiv. rewrite <- Qmult_assoc, (Qmult_comm (/ _)), Qmult_assoc.
    apply Qle_shift_div_r.
    { change 0 with (inject_Z 0). rewrite <- Zlt_Qlt. exact H2. }
    rewrite <- !inject_Z_mult. rewrite <- Zle_Qle.
    apply Z.mul_le_mono_nonneg; lia.
Qed.

Lemma binade_lt x k : ~ x == 0 -> Qabs x < pow2 k -> (binade x < k)%Z.
Proof.
  intros Hx Hk. apply pow2_lt_inv.
  eapply Qle_lt_trans; [apply binade_le; exact Hx|exact Hk].
Qed.

Lemma exponent_le x k :
  ~ x == 0 -> Qabs x < pow2 k -> (exponent x <= Z.max (k - 53) (-1074))%Z.
Proof.
  intros Hx Hk. pose proof (binade_lt x k Hx Hk). unfold exponent. lia.
Qed.

(** *** Rounding to the nearest integer *)

Lemma roundEven_cases m :
  roundEven m = Qfloor m \/
  (roundEven m = (Qfloor m + 1)%Z /\ 1 # 2 <= m - inject_Z (Qfloor m)).
Proof.
  unfold roundEven.
  destruct (Qcompare_spec (m - inject_Z (Qfloor m)) (1 # 2)) as [H|H|H].
  - destruct (Z.even (Qfloor m)); [now left|right]. split; [reflexivity|].
    rewrite H. apply Qle_refl.
  - now left.
  - right. split; [reflexivity|]. now apply Qlt_le_weak.
Qed.

Lemma roundEven_near m :
  - (1 # 2) <= inject_Z (roundEven m) - m <= 1 # 2.
Proof.
  pose proof (Qfloor_le m) as Hlo. pose proof (Qlt_floor m) as Hhi.
  rewrite inject_Z_plus in Hhi. change (inject_Z 1) with 1 in Hhi.
  unfold roundEven.
  destruct (Qcompare_spec (m - inject_Z (Qfloor m)) (1 # 2)) as [H|H|H].
  - destruct (Z.even (Qfloor m)).
    + split; lra.
    + rewrite inject_Z_plus. change (inject_Z 1) with 1. split; lra.
  - split; lra.
  - rewrite inject_Z_plus. change (inject_Z 1) with 1. split; lra.
Qed.

Lemma roundEven_le m k : m <= inject_Z k -> (roundEven m <= k)%Z.
Proof.
  intros H. pose proof (Qfloor_le m) as Hlo.
  destruct (roundEven_cases m) as [->|[-> Hhalf]].
  - rewrite Zle_Qle. lra.
  - assert (Hlt : inject_Z (Qfloor m) < inject_Z k) by lra.
    rewrite <- Zlt_Qlt in Hlt. lia.
Qed.

Lemma roundEven_ge m k : inject_Z k <= m -> (k <= roundEven m)%Z.
Proof.
  intros H. pose proof (Qlt_floor m) as Hhi.
  assert (Hlt : inject_Z k < inject_Z (Qfloor m + 1)) by lra.
  rewrite <- Zlt_Qlt in Hlt.
  destruct (roundEven_cases m) as [->|[-> _]]; lia.
Qed.

(** *** Rounding to binary64 *)

(** [round x] is a nearest multiple of the last place: it lies within half
    a unit of it from [x]. *)
Lemma round_error x :
  - (pow2 (exponent x) / 2) <= round x - x <= pow2 (exponent x) / 2.
Proof.
  unfold round. rewrite Qred_correct.
  pose proof (pow2_pos (exponent x)) as Hp.
  set (p := pow2 (exponent x)) in *.
  pose proof (roundEven_near (x / p)) as [Hlo Hhi].
  set (z := inject_Z (roundEven (x / p))) in *.
  assert (Hx : x == (x / p) * p) by (field; lra).
  assert (H : z * p - x == (z - x / p) * p) by (field; lra).
  rewrite H. split.
  - setoid_replace (- (p / 2)) with (- (1 # 2) * p) by field.
    apply Qmult_le_compat_r; lra.
  - setoid_replace (p / 2) with ((1 # 2) * p) by field.
    apply Qmult_le_compat_r; lra.
Qed.

Lemma on_grid M t q :
  (q <= t)%Z -> inject_Z M * pow2 t == inject_Z (M * 2 ^ (t - q)) * pow2 q.
Proof.
  intros H. rewrite inject_Z_mult, <- pow2_Z by lia.
  rewrite <- Qmult_assoc, <- pow2_add.
  replace (t - q + q)%Z with t by lia. reflexivity.
Qed.

(** Rounding does not cross a multiple of a power of two that is no finer
    than the last place of [x]. *)
Lemma round_le x M t :
  x <= inject_Z M * pow2 t -> (exponent x <= t)%Z ->
  round x <= inject_Z M * pow2 t.
Proof.
  intros Hx Ht. unfold round. rewrite Qred_correct.
  rewrite (on_grid M t (exponent x) Ht) in *.
  pose proof (pow2_pos (exponent x)) as Hp.
  set (p := pow2 (exponent x)) in *.
  apply Qmult_le_compat_r; [|lra].
  rewrite <- Zle_Qle. apply roundEven_le.
  apply Qle_shift_div_r; assumption.
Qed.

Lemma round_ge x M t :
  inject_Z M * pow2 t <= x -> (exponent x <= t)%Z ->
  inject_Z M * pow2 t <= round x.
Proof.
  intros Hx Ht. unfold round. rewrite Qred_correct.
  rewrite (on_grid M t (exponent x) Ht) in *.
  pose proof (pow2_pos (exponent x)) as Hp.
  set (p := pow2 (exponent x)) in *.
  apply Qmult_le_compat_r; [|lra].
  rewrite <- Zle_Qle. apply roundEven_ge.
  apply Qle_shift_div_l; assumption.
Qed.

Lemma round_zero x : x == 0 -> round x == 0.
Proof.
  intros Hx. unfold round. rewrite Qred_correct.
  assert (H : roundEven (x / pow2 (exponent x)) = 0%Z).
  { unfold roundEven.
    assert (H0 : x / pow2 (exponent x) == 0).
    { unfold Qdiv. transitivity (0 * / pow2 (exponent x)).
      - apply Qmult_comp; [exact Hx|reflexivity].
      - apply Qmult_0_l. }
    rewrite (Qfloor_comp _ _ H0). change (Qfloor 0) with 0%Z.
    destruct (Qcompare_spec (x / pow2 (exponent x) - inject_Z 0) (1 # 2))
      as [H|H|H].
    - rewrite H0 in H. discriminate.
    - reflexivity.
    - rewrite H0 in H. discriminate. }
  rewrite H. apply Qmult_0_l.
Qed.











(** *** The offsets of the privacy fuzzer *)

Lemma exponent_small x k t :
  Qabs x < pow2 k -> (Z.max (k - 53) (-1074) <= t)%Z -> ~ x == 0 ->
  (exponent x <= t)%Z.
Proof.
  intros Hk Ht Hx. pose proof (exponent_le x k Hx Hk). lia.
Qed.

Lemma round_between x lo hi t k :
  inject_Z lo * pow2 t <= x -> x <= inject_Z hi * pow2 t ->
  Qabs x < pow2 k -> (Z.max (k - 53) (-1074) <= t)%Z ->
  inject_Z lo * pow2 t <= round x <= inject_Z hi * pow2 t.
Proof.
  intros Hlo Hhi Hk Ht. destruct (Qeq_dec x 0) as [Hx|Hx].
  - rewrite (round_zero x Hx). rewrite Hx in Hlo, Hhi. now split.
  - pose proof (exponent_small x k t Hk Ht Hx) as He.
    split; [now apply round_ge|now apply round_le].
Qed.

(** [r - 0.5] stays between -0.5 and 0.5 for a draw [r]. *)
Lemma sub_half r : 0 <= r -> r < 1 -> - (1 # 2) <= sub r 0.5 <= 1 # 2.
Proof.
  intros H0 H1. unfold sub.
  pose proof (round_between (r - 0.5) (-1) 1 (-1) 0) as H.
  change (inject_Z (-1) * pow2 (-1)) with (- (1 # 2)) in H.
  change (inject_Z 1 * pow2 (-1)) with (1 # 2) in H.
  apply H; try lra; [|lia].
  apply Qabs_Qlt_condition. change (pow2 0) with 1. split; lra.
Qed.

(** The offset of a draw lies between the numbers -0.0036 and 0.0036. *)
Lemma jitter_bounds r :
  0 <= r -> r < 1 -> - jitterBound <= jitter r <= jitterBound.
Proof.
  intros H0 H1. pose proof (sub_half r H0 H1) as [Hlo Hhi].
  unfold jitter, mul. set (a := sub r 0.5) in *.
  assert (Hspan : round 0.0072 == inject_Z 4150517416584649 * pow2 (-59))
    by reflexivity.
  assert (Hb : jitterBound == inject_Z 4150517416584649 * pow2 (-60))
    by reflexivity.
  assert (Hnb : - jitterBound == inject_Z (-4150517416584649) * pow2 (-60))
    by reflexivity.
  rewrite Hnb, Hb.
  set (c := round 0.0072) in *.
  assert (Hc : 0 < c) by (rewrite Hspan; reflexivity).
  assert (Hhalf : inject_Z 4150517416584649 * pow2 (-60) == (1 # 2) * c)
    by (rewrite Hspan; reflexivity).
  assert (Hnhalf : inject_Z (-4150517416584649) * pow2 (-60) == - (1 # 2) * c)
    by (rewrite Hspan; reflexivity).
  apply (round_between (a * c) _ _ (-60) (-8)).
  - rewrite Hnhalf. apply Qmult_le_compat_r; lra.
  - rewrite Hhalf. apply Qmult_le_compat_r; lra.
  - apply Qabs_Qlt_condition.
    assert (Hc8 : (1 # 2) * c < pow2 (-8)) by (rewrite Hspan; reflexivity).
    assert (- ((1 # 2) * c) <= a * c).
    { setoid_replace (- ((1 # 2) * c)) with (- (1 # 2) * c) by ring.
      apply Qmult_le_compat_r; lra. }
    assert (a * c <= (1 # 2) * c) by (apply Qmult_le_compat_r; lra).
    split; lra.
  - lia.
Qed.

(** Below [2 ^ k] rounding moves a number by at most [2 ^ (k - 54)]. *)
Lemma round_near x k :
  Qabs x < pow2 k -> (-1021 <= k)%Z ->
  - pow2 (k - 54) <= round x - x <= pow2 (k - 54).
Proof.
  intros Hk Hrange. destruct (Qeq_dec x 0) as [Hx|Hx].
  - pose proof (pow2_pos (k - 54)). rewrite (round_zero x Hx), Hx. split; lra.
  - pose proof (round_error x) as Herr.
    pose proof (exponent_le x k Hx Hk) as He.
    assert (Hp : pow2 (exponent x) <= pow2 (k - 53)) by (apply pow2_le; lia).
    assert (H2 : pow2 (k - 53) == 2 * pow2 (k - 54)).
    { replace (k - 53)%Z with (1 + (k - 54))%Z by lia. now rewrite pow2_add. }
    unfold Qdiv in Herr.
    assert (pow2 (exponent x) * / 2 <= pow2 (k - 54)).
    { setoid_replace (pow2 (exponent x) * / 2)
        with ((1 # 2) * pow2 (exponent x)) by field.
      lra. }
    split; lra.
Qed.

(** The sum of a coordinate and an offset lies within the bound of the
    offset and the rounding of the sum of the coordinate. *)
Lemma add_near lat j :
  - 100 <= lat <= 100 -> - jitterBound <= j <= jitterBound ->
  - (jitterBound + roundingSlack) <= add (round lat) j - round lat
     <= jitterBound + roundingSlack.
Proof.
  intros [Hlo Hhi] [Hjlo Hjhi].
  assert (Hb : jitterBound < 1) by reflexivity.
  assert (Hs : roundingSlack < 1) by reflexivity.
  assert (Hs0 : 0 < roundingSlack) by reflexivity.
  assert (H128 : pow2 7 == 128) by reflexivity.
  pose proof (round_near lat 7) as Hlat.
  change (pow2 (7 - 54)) with roundingSlack in Hlat.
  destruct Hlat as [Hl1 Hl2]; [apply Qabs_Qlt_condition; split; lra|lia|].
  pose proof (round_near (round lat + j) 7) as Hsum.
  change (pow2 (7 - 54)) with roundingSlack in Hsum.
  destruct Hsum as [Hs1 Hs2]; [apply Qabs_Qlt_condition; split; lra|lia|].
  unfold add. split; lra.
Qed.

End Binary64Facts.

Import Binary64Facts.

(** *** Agreement with the floating-point numbers of the prover *)

Module FloatCheck.

Import PrimFloat.

(** On every coordinate of the gazetteer and of the distribution points,
    and for each of the sample draws, the offset computed with the rounding
    of [Binary64] is the number that the binary64 arithmetic of the prover
    computes; and the numerals of the fuzzer and of Dupont Circle denote the
    numbers that the prover reads them as. *)
#[warnings="-inexact-float"] Example binary64_agrees_with_floats :
  forallb (fun entry =>
             forallb (fun r => agrees (fst (snd entry)) r
                               && agrees (snd (snd entry)) r) sampleDraws)
          dmvLocations = true /\
  forallb (fun point =>
             forallb (fun r => agrees (fst (point_coords point)) r
                               && agrees (snd (point_coords point)) r) sampleDraws)
          distributionPoints = true /\
  ofFloat 0.0072%float = Some (Binary64.round 0.0072) /\
  ofFloat 0.0036%float = Some jitterBound /\
  ofFloat 38.9097%float = Some (Binary64.round 38.9097) /\
  ofFloat (-77.0365)%float = Some (Binary64.round (-77.0365)) /\
  ofFloat (-77.0365 + (0 - 0.5) * 0.0072)%float
    = Some (snd (offsetBy 38.9097 (-77.0365) 0 0)).
Proof.
  do 6 (split; [vm_compute; reflexivity|]). vm_compute. reflexivity.
Qed.

End FloatCheck.

(** ** Running the effects *)

Lemma bind_Normal {A B} (m : M A) (k : A -> M B) E st a st' :
  m E st = (Normal a, st') -> bind m k E st = k a E st'.
Proof. unfold bind. now intros ->. Qed.

Lemma bind_Throw {A B} (m : M A) (k : A -> M B) E st e st' :
  m E st = (Throw e, st') -> bind m k E st = (Throw e, st').
Proof. unfold bind. now intros ->. Qed.

Lemma afterDraws_0 st : afterDraws st 0 = st.
Proof. destruct st; unfold afterDraws; simpl. now rewrite Nat.add_0_r. Qed.

Lemma afterDraws_add st n m : afterDraws (afterDraws st n) m = afterDraws st (n + m).
Proof. unfold afterDraws; simpl. now rewrite Nat.add_assoc. Qed.

Lemma addRandomOffset_pair lat lng E st :
  addRandomOffset (CoordPair lat lng) E st =
  (Normal (offsetBy lat lng (random E (drawn st)) (random E (S (drawn st)))),
   afterDraws st 2).
Proof.
  unfold addRandomOffset, bind, Math_random, ret, offsetBy, afterDraws; simpl.
  replace (drawn st + 2)%nat with (S (S (drawn st))) by lia. reflexivity.
Qed.

Lemma inRange_iff c :
  inRange c = true <->
  (- 100 <= fst c <= 100 /\ - 100 <= snd c <= 100)%Q.
Proof.
  unfold inRange. rewrite !andb_true_iff, !Qle_bool_iff. tauto.
Qed.

Lemma offsetBy_within lat lng r1 r2 :
  inRange (lat, lng) = true ->
  (0 <= r1 /\ r1 < 1)%Q -> (0 <= r2 /\ r2 < 1)%Q ->
  within (offsetBy lat lng r1 r2) (lat, lng).
Proof.
  intros Hrange [H1 H1'] [H2 H2']. apply inRange_iff in Hrange.
  destruct Hrange as [Hlat Hlng]. cbn [fst snd] in Hlat, Hlng.
  pose proof (add_near lat (jitter r1) Hlat (jitter_bounds r1 H1 H1')) as Ha.
  pose proof (add_near lng (jitter r2) Hlng (jitter_bounds r2 H2 H2')) as Hb.
  assert (Hbound : (jitterBound <= 0.0036)%Q) by (vm_compute; discriminate).
  unfold within, numbers, offsetBy, reach. cbn [fst snd].
  split; apply Qabs_Qle_condition; split; lra.
Qed.

(** ** Group classifier *)

Lemma determineGroupType_affinity_iff attributes :
  determineGroupType attributes = affinity <->
  exists keyword, In keyword affinityKeywords /\
    (occursIn keyword (toLowerCase (orElse (Attributes.name attributes) "")) \/
     occursIn keyword (toLowerCase (orElse (Attributes.description attributes) ""))).
Proof.
  unfold determineGroupType.
  destruct (existsb _ affinityKeywords) eqn:Hex.
  - split; [intros _ | reflexivity].
    apply existsb_exists in Hex. destruct Hex as (keyword & Hin & Hk).
    exists keyword. split; [assumption|].
    apply orb_true_iff in Hk. now rewrite <- !includes_iff.
  - split; [discriminate|].
    intros (keyword & Hin & Hk). exfalso.
    rewrite <- !includes_iff, <- orb_true_iff in Hk.
    assert (Ht : existsb
      (fun keyword => includes (toLowerCase (orElse (Attributes.name attributes) "")) keyword
                   || includes (toLowerCase (orElse (Attributes.description attributes) "")) keyword)
      affinityKeywords = true) by (apply existsb_exists; eauto).
    congruence.
Qed.

(** C7. [determineGroupType] depends on the name and the description only; it
    answers [affinity] exactly when the lower-cased name or the lower-cased
    description contains one of the affinity keywords, and [community]
    otherwise. "Young Adult Professionals" is an affinity group whatever its
    description; "Bethesda Community Group" described as "families and
    individuals" is a community group. *)
Theorem determineGroupType_keywords :
  (exists classify : option string -> option string -> GroupType,
     forall attributes,
       determineGroupType attributes =
       classify (Attributes.name attributes) (Attributes.description attributes)) /\
  (forall attributes,
     determineGroupType attributes = affinity <->
     exists keyword, In keyword affinityKeywords /\
       (occursIn keyword (toLowerCase (orElse (Attributes.name attributes) "")) \/
        occursIn keyword (toLowerCase (orElse (Attributes.description attributes) "")))) /\
  (forall attributes,
     determineGroupType attributes = community <->
     ~ exists keyword, In keyword affinityKeywords /\
       (occursIn keyword (toLowerCase (orElse (Attributes.name attributes) "")) \/
        occursIn keyword (toLowerCase (orElse (Attributes.description attributes) "")))) /\
  (forall description,
     determineGroupType (namedAndDescribed "Young Adult Professionals" description)
     = affinity) /\
  determineGroupType
    (namedAndDescribed "Bethesda Community Group" "families and individuals")
  = community.
Proof.
  split; [|split; [|split; [|split]]].
  - exists (fun n d =>
      determineGroupType
        (Attributes.mk n d None None None None None None None None None
                       None None None None None None)).
    intros attributes. reflexivity.
  - exact determineGroupType_affinity_iff.
  - intros attributes. rewrite <- determineGroupType_affinity_iff.
    destruct (determineGroupType attributes); split; congruence.
  - intros description. apply determineGroupType_affinity_iff.
    exists "young adult". split; [simpl; auto|].
    left. exists "", " professionals". reflexivity.
  - vm_compute. reflexivity.
Qed.

(** ** Location resolver: the geocoder *)

Lemma ownProperty_In entries key c :
  ownProperty entries key = Some c -> In (key, c) entries.
Proof.
  induction entries as [|[k v] rest IH]; simpl; [discriminate|].
  destruct (String.eqb_spec k key) as [->|ne].
  - intros [= ->]. now left.
  - intros H. right. now apply IH.
Qed.

Lemma partialMatch_In location place c :
  partialMatch location = Some (place, c) -> In (place, c) dmvLocations.
Proof. unfold partialMatch. intros H. now apply find_some in H. Qed.

Lemma specAnchor_In location :
  exists place, In (place, specAnchor location) dmvLocations.
Proof.
  unfold specAnchor.
  destruct (ownProperty dmvLocations location) as [c|] eqn:Hown.
  - exists location. now apply ownProperty_In.
  - destruct (find _ dmvLocations) as [[place c]|] eqn:Hfind.
    + exists place. now apply find_some in Hfind.
    + destruct (_ || _).
      * exists "arlington". unfold dmvLocations.
        repeat (try (left; reflexivity); right).
      * destruct (_ || _).
        -- exists "silver spring". unfold dmvLocations.
           repeat (try (left; reflexivity); right).
        -- exists "washington dc". unfold dmvLocations.
           repeat (try (left; reflexivity); right).
Qed.

(** Away from the names inherited from [Object.prototype], the geocoder
    follows the order (a)-(d) and jitters the chosen anchor once. *)
Lemma geocodeLocation_follows_order locationString E st :
  let location := trim (toLowerCase locationString) in
  ownProperty dmvLocations location <> None \/ inherited location = false ->
  geocodeLocation locationString E st =
  addRandomOffset (CoordPair (fst (specAnchor location)) (snd (specAnchor location))) E st.
Proof.
  intros location Hkey. unfold geocodeLocation, getProperty, specAnchor, partialMatch.
  fold location.
  destruct (ownProperty dmvLocations location) as [[lat lng]|] eqn:Hown.
  - reflexivity.
  - destruct Hkey as [Hkey|Hkey]; [congruence|]. rewrite Hkey.
    destruct (find _ dmvLocations) as [[place [lat lng]]|]; [reflexivity|].
    destruct (_ || _); [reflexivity|].
    destruct (_ || _); reflexivity.
Qed.

(** On a name inherited from [Object.prototype] that is no gazetteer key the
    lookup yields a value that cannot be destructured. *)
Lemma geocodeLocation_inherited locationString E st :
  let location := trim (toLowerCase locationString) in
  ownProperty dmvLocations location = None -> inherited location = true ->
  geocodeLocation locationString E st = (Throw (TypeError "coords is not iterable"), st).
Proof.
  intros location Hown Hin. unfold geocodeLocation, getProperty. fold location.
  now rewrite Hown, Hin.
Qed.

Lemma geocodeLocation_cases locationString E st :
  (exists place source,
     In (place, source) dmvLocations /\
     geocodeLocation locationString E st =
     (Normal (offsetBy (fst source) (snd source)
                       (random E (drawn st)) (random E (S (drawn st)))),
      afterDraws st 2)) \/
  geocodeLocation locationString E st = (Throw (TypeError "coords is not iterable"), st).
Proof.
  set (location := trim (toLowerCase locationString)).
  destruct (ownProperty dmvLocations location) as [c|] eqn:Hown.
  - left. destruct (specAnchor_In location) as [place Hin].
    exists place, (specAnchor location). split; [assumption|].
    rewrite geocodeLocation_follows_order; [apply addRandomOffset_pair|].
    left. fold location. congruence.
  - destruct (inherited location) eqn:Hinh.
    + right. now apply geocodeLocation_inherited.
    + left. destruct (specAnchor_In location) as [place Hin].
      exists place, (specAnchor location). split; [assumption|].
      rewrite geocodeLocation_follows_order; [apply addRandomOffset_pair|].
      now right.
Qed.

(** C5. The string "constructor" is a location that [extractLocation] sends
    to the geocoder; the order (a)-(d) selects the DC centre for it (it is no
    gazetteer key, matches none partially and holds no state keyword), but
    [dmvLocations["constructor"]] is the inherited [Object] function, the exact
    match branch is taken and [addRandomOffset] throws; the same holds for
    "__proto__" and for any spelling of either in upper case or with blanks
    around it. A batch that holds such a group makes [processGroups] throw. *)
Theorem geocodeLocation_constructor_throws :
  meaningful "constructor" = true /\
  specAnchor "constructor" = (38.9072, -77.0369)%Q /\
  (forall E st,
     geocodeLocation "constructor" E st
     = (Throw (TypeError "coords is not iterable"), st)) /\
  (forall E st,
     geocodeLocation " __PROTO__ " E st
     = (Throw (TypeError "coords is not iterable"), st)) /\
  (forall E st rest,
     processGroups
       ({| raw_id := "1";
           attributes := Some
             (Attributes.mk (Some "Builders") None None (Some "Constructor")
                None None None None None None None None None (Some false)
                None None None) |} :: rest) E st
     = (Throw (TypeError "coords is not iterable"), st)).
Proof.
  split; [reflexivity|]. split; [reflexivity|].
  split; [|split].
  - intros E st. apply geocodeLocation_inherited; reflexivity.
  - intros E st. apply geocodeLocation_inherited; reflexivity.
  - intros E st rest.
    unfold processGroups. apply bind_Throw.
    cbn [mapM]. apply bind_Throw.
    unfold processGroup. apply bind_Throw.
    unfold extractLocation.
    change (selectedLocation _) with "Constructor".
    change (meaningful "Constructor") with true. cbv iota.
    apply bind_Throw. apply geocodeLocation_inherited; reflexivity.
Qed.

(** ** Geographic distributor *)

Lemma distributeGroup_run distributionIndex group E st :
  distributeGroup distributionIndex group E st =
  if lacksCoordinates group
  then (Normal (distributed E group (pointAt (distributionIndex mod 12)) (drawn st),
                S distributionIndex),
        afterDraws st 4)
  else (Normal (group, distributionIndex), st).
Proof.
  unfold distributeGroup, lacksCoordinates.
  destruct (coordinates group); [reflexivity|].
  change (List.length distributionPoints) with 12%nat.
  erewrite bind_Normal by apply addRandomOffset_pair.
  erewrite bind_Normal by apply addRandomOffset_pair.
  unfold ret, distributed. rewrite afterDraws_add. simpl drawn.
  replace (S (drawn st)) with (drawn st + 1)%nat by lia.
  replace (S (drawn st + 2)) with (drawn st + 3)%nat by lia.
  reflexivity.
Qed.

Lemma distributeFrom_run groups : forall distributionIndex E st,
  exists out,
    distributeFrom distributionIndex groups E st
      = (Normal out, afterDraws st (4 * missing groups)) /\
    List.length out = List.length groups /\
    forall i group, nth_error groups i = Some group ->
      nth_error out i = Some (distributedAt E st distributionIndex groups i group).
Proof.
  induction groups as [|g rest IH]; intros distributionIndex E st.
  - exists []. simpl. unfold ret. rewrite afterDraws_0.
    repeat split. intros [|i] group; discriminate.
  - cbn [distributeFrom]. unfold bind at 1. rewrite distributeGroup_run.
    unfold missing. cbn [filter]. fold (missing rest).
    destruct (lacksCoordinates g) eqn:Hg.
    + destruct (IH (S distributionIndex) E (afterDraws st 4)) as (out & Hrun & Hlen & Hnth).
      cbn [fst snd]. erewrite bind_Normal by exact Hrun.
      eexists. split; [|split].
      * unfold ret. rewrite afterDraws_add. cbn [List.length].
        replace (4 + 4 * missing rest)%nat with (4 * S (missing rest))%nat by lia.
        reflexivity.
      * simpl. now rewrite Hlen.
      * intros [|i] group; cbn [nth_error].
        -- intros [= <-]. unfold distributedAt. rewrite Hg.
           cbn [firstn]. unfold missing at 1 2. cbn [filter List.length].
           now rewrite Nat.add_0_r, Nat.mul_0_r, Nat.add_0_r.
        -- intros Hi. rewrite (Hnth i group Hi). f_equal.
           unfold distributedAt. destruct (lacksCoordinates group); [|reflexivity].
           cbn [firstn]. unfold missing at 3 4. cbn [filter]. rewrite Hg.
           cbn [List.length]. fold (missing (firstn i rest)).
           replace (S distributionIndex + missing (firstn i rest))%nat
             with (distributionIndex + S (missing (firstn i rest)))%nat by lia.
           replace (drawn (afterDraws st 4) + 4 * missing (firstn i rest))%nat
             with (drawn st + 4 * S (missing (firstn i rest)))%nat
             by (unfold afterDraws; simpl; lia).
           reflexivity.
    + destruct (IH distributionIndex E st) as (out & Hrun & Hlen & Hnth).
      cbn [fst snd]. erewrite bind_Normal by exact Hrun.
      eexists. split; [|split].
      * reflexivity.
      * simpl. now rewrite Hlen.
      * intros [|i] group; cbn [nth_error].
        -- intros [= <-]. unfold distributedAt. now rewrite Hg.
        -- intros Hi. rewrite (Hnth i group Hi). f_equal.
           unfold distributedAt. destruct (lacksCoordinates group); [|reflexivity].
           cbn [firstn]. unfold missing at 3 4. cbn [filter]. rewrite Hg.
           reflexivity.
Qed.

Lemma In_firstn {A} (x : A) n (l : list A) : In x (firstn n l) -> In x l.
Proof.
  revert l; induction n as [|n IH]; intros [|y l]; simpl; try tauto.
  intros [H|H]; [now left | right; now apply IH].
Qed.

Lemma missing_all groups :
  (forall group, In group groups -> coordinates group = None) ->
  missing groups = List.length groups.
Proof.
  unfold missing. induction groups as [|g rest IH]; intros Hall; [reflexivity|].
  cbn [filter]. unfold lacksCoordinates at 1.
  rewrite (Hall g) by now left.
  cbn [List.length]. f_equal. apply IH. intros group Hin. apply Hall. now right.
Qed.

Lemma pointAt_nth_error k :
  nth_error distributionPoints (k mod 12) = Some (pointAt (k mod 12)).
Proof.
  unfold pointAt. apply nth_error_nth'.
  change (List.length distributionPoints) with 12%nat.
  apply Nat.mod_upper_bound. discriminate.
Qed.

(** C6. [distributeGroupsGeographically] always returns a list as long as its
    input; a record with coordinates is returned as it is; the record at
    position [i] without coordinates, the [k]-th such record of the input
    ([k] counts those before position [i]), is rebuilt for the anchor at
    index [k mod 12] of the twelve distribution points: address, neighborhood
    and both coordinate fields come from that anchor. With thirteen records
    without coordinates the thirteenth is given the anchor of index 0. *)
Theorem distributeGroupsGeographically_round_robin (E : Env) (st : State)
    (groups : list GroupRecord) :
  exists out,
    distributeGroupsGeographically groups E st
      = (Normal out, afterDraws st (4 * missing groups)) /\
    List.length out = List.length groups /\
    List.length distributionPoints = 12%nat /\
    (forall i group,
       nth_error groups i = Some group -> coordinates group <> None ->
       nth_error out i = Some group) /\
    (forall i group,
       nth_error groups i = Some group -> coordinates group = None ->
       let k := missing (firstn i groups) in
       exists point,
         nth_error distributionPoints (k mod 12) = Some point /\
         nth_error out i = Some (distributed E group point (drawn st + 4 * k))) /\
    (List.length groups = 13%nat ->
     (forall group, In group groups -> coordinates group = None) ->
     exists group point,
       nth_error groups 12 = Some group /\
       nth_error distributionPoints 0 = Some point /\
       nth_error out 12 = Some (distributed E group point (drawn st + 48))).
Proof.
  destruct (distributeFrom_run groups 0 E st) as (out & Hrun & Hlen & Hnth).
  exists out. split; [exact Hrun|]. split; [exact Hlen|]. split; [reflexivity|].
  split; [|split].
  - intros i group Hi Hc. rewrite (Hnth i group Hi).
    unfold distributedAt, lacksCoordinates.
    destruct (coordinates group); [reflexivity | congruence].
  - intros i group Hi Hc k.
    exists (pointAt (k mod 12)). split; [apply pointAt_nth_error|].
    rewrite (Hnth i group Hi). unfold distributedAt, lacksCoordinates.
    rewrite Hc. reflexivity.
  - intros Hlen13 Hall.
    destruct (nth_error groups 12) as [group|] eqn:H12.
    2:{ apply nth_error_None in H12. lia. }
    exists group, (pointAt 0). split; [reflexivity|]. split; [reflexivity|].
    rewrite (Hnth 12%nat group H12). unfold distributedAt, lacksCoordinates.
    rewrite (Hall group) by (eapply nth_error_In; eassumption).
    assert (Hm : missing (firstn 12 groups) = 12%nat).
    { rewrite missing_all.
      - rewrite length_firstn. lia.
      - intros g Hin. apply Hall. eapply In_firstn; eassumption. }
    rewrite Hm. reflexivity.
Qed.

(** ** Privacy fuzzer *)

Lemma dmvLocations_inRange place source :
  In (place, source) dmvLocations -> inRange source = true.
Proof.
  intros Hin.
  assert (H : forallb (fun entry => inRange (snd entry)) dmvLocations = true)
    by (vm_compute; reflexivity).
  rewrite forallb_forall in H. exact (H _ Hin).
Qed.

Lemma specAnchor_inRange location : inRange (specAnchor location) = true.
Proof.
  destruct (specAnchor_In location) as [place Hin].
  exact (dmvLocations_inRange _ _ Hin).
Qed.

Lemma distributionPoints_inRange point :
  In point distributionPoints -> inRange (point_coords point) = true.
Proof.
  intros Hin.
  assert (H : forallb (fun point => inRange (point_coords point)) distributionPoints
              = true) by (vm_compute; reflexivity).
  rewrite forallb_forall in H. exact (H _ Hin).
Qed.


Lemma geocodeLocation_returns locationString E st c st' :
  geocodeLocation locationString E st = (Normal c, st') ->
  let anchor := specAnchor (trim (toLowerCase locationString)) in
  c = offsetBy (fst anchor) (snd anchor)
               (random E (drawn st)) (random E (S (drawn st))) /\
  st' = afterDraws st 2.
Proof.
  intros Hrun anchor. subst anchor.
  set (location := trim (toLowerCase locationString)) in *.
  assert (Horder : ownProperty dmvLocations location <> None \/
                   inherited location = false).
  { destruct (ownProperty dmvLocations location) eqn:Hown; [left; discriminate|].
    destruct (inherited location) eqn:Hinh; [|now right].
    rewrite (geocodeLocation_inherited locationString E st Hown Hinh) in Hrun.
    discriminate. }
  rewrite (geocodeLocation_follows_order locationString E st Horder) in Hrun.
  rewrite addRandomOffset_pair in Hrun. now injection Hrun as <- <-.
Qed.

Lemma geocodeLocation_within E st locationString c st' :
  randomInUnit E ->
  geocodeLocation locationString E st = (Normal c, st') ->
  within c (specAnchor (trim (toLowerCase locationString))).
Proof.
  intros Hrandom Hrun.
  destruct (geocodeLocation_returns _ _ _ _ _ Hrun) as [-> _].
  set (anchor := specAnchor _).
  rewrite (surjective_pairing anchor) at 3.
  apply offsetBy_within; [|apply Hrandom|apply Hrandom].
  rewrite <- surjective_pairing. apply specAnchor_inRange.
Qed.

Lemma distributed_within E group point d :
  randomInUnit E -> inRange (point_coords point) = true ->
  exists c c',
    coordinates (distributed E group point d) = Some c /\
    Location.coordinates (location (distributed E group point d)) = Some c' /\
    within c (point_coords point) /\ within c' (point_coords point).
Proof.
  intros Hrandom Hrange. destruct point as [pname [lat lng]].
  cbn [point_coords] in Hrange.
  eexists; eexists. split; [reflexivity|]. split; [reflexivity|].
  cbn [point_coords fst snd].
  split; apply offsetBy_within; try exact Hrange; apply Hrandom.
Qed.

Lemma jitter_in_bounds r :
  (0 <= r /\ r < 1)%Q -> (- 0.0036 <= jitter r <= 0.0036)%Q.
Proof.
  intros [H0 H1]. pose proof (jitter_bounds r H0 H1) as [Hlo Hhi].
  assert (Hbound : (jitterBound <= 0.0036)%Q) by (vm_compute; discriminate).
  split; lra.
Qed.

Lemma distributed_record E st groups i group :
  nth_error groups i = Some group -> coordinates group = None ->
  exists out point,
    distributeGroupsGeographically groups E st
      = (Normal out, afterDraws st (4 * missing groups)) /\
    nth_error distributionPoints (missing (firstn i groups) mod 12) = Some point /\
    nth_error out i
      = Some (distributed E group point (drawn st + 4 * missing (firstn i groups))).
Proof.
  intros Hi Hnone.
  destruct (distributeFrom_run groups 0 E st) as (out & Hrun & _ & Hat).
  exists out, (pointAt (missing (firstn i groups) mod 12)).
  split; [exact Hrun|]. split; [apply pointAt_nth_error|].
  rewrite (Hat i group Hi). unfold distributedAt, lacksCoordinates.
  rewrite Hnone. reflexivity.
Qed.

(** C8, as the code has it. [addRandomOffset] draws twice, one value per
    axis, and adds to each axis, in binary64 arithmetic, the offset
    [(r - 0.5) * 0.0072] of its own draw. With draws in [0, 1) both offsets
    lie in [-0.0036, 0.0036]. The sum is rounded, so the result lies within
    [0.0036 + 2^-47] degrees of the input on both axes, for inputs between
    -100 and 100 as all coordinates of the code are. Hence every coordinate
    that [geocodeLocation] returns lies that near the anchor that the order
    (a)-(d) selects, and both coordinate fields of a record that
    [distributeGroupsGeographically] rebuilds lie that near its distribution
    point. *)
Theorem addRandomOffset_within_reach (E : Env) (st : State)
    (Hrandom : randomInUnit E) :
  (forall lat lng,
     let latOffset := jitter (random E (drawn st)) in
     let lngOffset := jitter (random E (S (drawn st))) in
     let c := (Binary64.add (Binary64.round lat) latOffset,
               Binary64.add (Binary64.round lng) lngOffset) in
     addRandomOffset (CoordPair lat lng) E st = (Normal c, afterDraws st 2) /\
     (- 0.0036 <= latOffset <= 0.0036)%Q /\
     (- 0.0036 <= lngOffset <= 0.0036)%Q /\
     (inRange (lat, lng) = true -> within c (lat, lng))) /\
  (forall locationString c st',
     geocodeLocation locationString E st = (Normal c, st') ->
     within c (specAnchor (trim (toLowerCase locationString)))) /\
  (forall groups i group,
     nth_error groups i = Some group -> coordinates group = None ->
     exists out point record c c',
       distributeGroupsGeographically groups E st
         = (Normal out, afterDraws st (4 * missing groups)) /\
       nth_error distributionPoints (missing (firstn i groups) mod 12)
         = Some point /\
       nth_error out i = Some record /\
       coordinates record = Some c /\
       Location.coordinates (location record) = Some c' /\
       within c (point_coords point) /\ within c' (point_coords point)).
Proof.
  split; [|split].
  - intros lat lng latOffset lngOffset c.
    split; [apply addRandomOffset_pair|].
    split; [apply jitter_in_bounds, Hrandom|].
    split; [apply jitter_in_bounds, Hrandom|].
    intros Hrange. apply (offsetBy_within lat lng _ _ Hrange); apply Hrandom.
  - intros locationString c st'. now apply geocodeLocation_within.
  - intros groups i group Hi Hnone.
    destruct (distributed_record E st groups i group Hi Hnone)
      as (out & point & Hrun & Hpoint & Hout).
    destruct (distributed_within E group point
                (drawn st + 4 * missing (firstn i groups)) Hrandom)
      as (c & c' & Hc & Hc' & Hwithin).
    { apply distributionPoints_inRange. eapply nth_error_In. exact Hpoint. }
    exists out, point,
      (distributed E group point (drawn st + 4 * missing (firstn i groups))),
      c, c'.
    repeat split; try assumption; apply Hwithin.
Qed.

Lemma halfDraws_inUnit : randomInUnit halfDraws.
Proof. intros n; simpl. split; lra. Qed.

Lemma addRandomOffset_within_reach_witness :
  exists c,
    geocodeLocation "Dupont Circle, DC" halfDraws initialState
      = (Normal c, afterDraws initialState 2) /\
    within c (38.9097, -77.0365)%Q.
Proof.
  exists (offsetBy 38.9097 (-77.0365) 0.5 0.5).
  split; [reflexivity|].
  exact (proj1 (proj2 (addRandomOffset_within_reach halfDraws initialState
                         halfDraws_inUnit))
           "Dupont Circle, DC" _ _ eq_refl).
Defined.

Lemma zeroDraws_inUnit : randomInUnit zeroDraws.
Proof. intros n; simpl. split; lra. Qed.

(** C8, refuted as stated: with a draw of 0, which [Math.random] can return,
    the longitude -77.0365 of Dupont Circle is moved to -77.04010000000001,
    a number that lies more than 0.0036 degrees from the number of the
    source, and from the numeral -77.0365 itself. The offset is the number
    -0.0036; the excess is the rounding of the sum. *)
Lemma addRandomOffset_exceeds_bound :
  randomInUnit zeroDraws /\
  In ("dupont circle", (38.9097, -77.0365)%Q) dmvLocations /\
  exists c,
    addRandomOffset (CoordPair 38.9097 (-77.0365)) zeroDraws initialState
      = (Normal c, afterDraws initialState 2) /\
    snd c = (-5421215088321653 # 70368744177664)%Q /\
    (0.0036 < Qabs (snd c - Binary64.round (-77.0365)))%Q /\
    (0.0036 < Qabs (snd c - (-77.0365)))%Q.
Proof.
  split; [exact zeroDraws_inUnit|]. split; [now left|].
  eexists. split; [apply addRandomOffset_pair|].
  split; [vm_compute; reflexivity|]. split; vm_compute; reflexivity.
Qed.







(** ** [getGroups] *)

Lemma fallbackGroups_hasCoordinates : Forall hasCoordinates fallbackGroups.
Proof.
  unfold fallbackGroups. repeat (apply Forall_cons || apply Forall_nil); discriminate.
Qed.

(** C2. Whatever the environment, [getGroups] returns the list of
    [getFallbackGroups], five records, and leaves the state as it found it:
    nothing is fetched and no random value is drawn. The statements placed
    after the first [return] have no bearing on the outcome: any other
    statement in their place gives the same function. *)
Theorem getGroups_is_getFallbackGroups (E : Env) (st : State) :
  getGroups E st = (Normal (Some fallbackGroups), st) /\
  getFallbackGroups E st = (Normal fallbackGroups, st) /\
  List.length fallbackGroups = 5%nat /\
  (forall rest : Stmt (list GroupRecord),
     function (return_ getFallbackGroups ;; rest) E st = getGroups E st) /\
  (forall E' : Env, getGroups E' st = getGroups E st).
Proof.
  assert (Hreturn : forall (rest : Stmt (list GroupRecord)) E0,
            function (return_ getFallbackGroups ;; rest) E0 st
            = (Normal (Some fallbackGroups), st)).
  { intros rest E0. unfold function, seq, return_, getFallbackGroups, bind, ret.
    reflexivity. }
  split; [apply Hreturn|].
  split; [reflexivity|].
  split; [reflexivity|].
  split.
  - intros rest. unfold getGroups. now rewrite !Hreturn.
  - intros E'. unfold getGroups. now rewrite !Hreturn.
Qed.

Lemma getGroups_try_on_failure E st :
  fetchFails E ->
  getGroups_try E st
  = (Normal (Return fallbackGroups), afterRequest st (baseURL ++ "/groups")).
Proof.
  unfold fetchFails, getGroups_try, try_catch, const_, bind, fetch.
  destruct (network E (baseURL ++ "/groups")) as [|response]; [reflexivity|].
  intros [Hok|(data & Hjson & Herr)].
  - unfold seq, if_, bind. rewrite Hok. reflexivity.
  - unfold seq, if_, bind, response_json, property. rewrite Hjson.
    destruct (ok response); simpl; [|reflexivity].
    unfold ret. rewrite Herr. reflexivity.
Qed.

(** C3. When the fetch fails, by a network error, a status that is not OK or
    an [error] field in the answer, the [try]/[catch] of [getGroups] returns the
    fallback list, and so does [getGroups] itself; the list has five records,
    each with coordinates and with the group type that [determineGroupType]
    computes from its name and description. *)
Theorem getGroups_fallback_on_failure (E : Env) (st : State)
    (Hfail : fetchFails E) :
  getGroups E st = (Normal (Some fallbackGroups), st) /\
  getGroups_try E st
  = (Normal (Return fallbackGroups), afterRequest st (baseURL ++ "/groups")) /\
  List.length fallbackGroups = 5%nat /\
  Forall (fun group =>
            coordinates group <> None /\
            groupType group =
            determineGroupType (namedAndDescribed (name group) (description group)))
         fallbackGroups.
Proof.
  split; [reflexivity|]. split; [now apply getGroups_try_on_failure|].
  split; [reflexivity|].
  unfold fallbackGroups.
  repeat (apply Forall_cons || apply Forall_nil);
    (split; [discriminate | vm_compute; reflexivity]).
Qed.

Lemma halfDraws_fetchFails : fetchFails halfDraws.
Proof. exact I. Qed.

Lemma getGroups_fallback_on_failure_witness :
  getGroups halfDraws initialState = (Normal (Some fallbackGroups), initialState) /\
  getGroups_try halfDraws initialState
  = (Normal (Return fallbackGroups),
     afterRequest initialState (baseURL ++ "/groups")).
Proof.
  destruct (getGroups_fallback_on_failure halfDraws initialState halfDraws_fetchFails)
    as (H1 & H2 & _).
  split; assumption.
Defined.

(** *** The live path *)

Lemma processGroup_result group E st g st' :
  processGroup group E st = (Normal g, st') ->
  id g = raw_id group /\ isActive g = activeRaw group /\
  coordinates g = Location.coordinates (location g).
Proof.
  unfold processGroup, bind.
  destruct (extractLocation (attributesOf group) E st) as [[loc|e] st1];
    [|discriminate].
  unfold ret. intros [= <- _]. repeat split.
Qed.

Lemma mapM_processGroup rawGroups : forall E st mapped st',
  mapM processGroup rawGroups E st = (Normal mapped, st') ->
  map id (filter (fun group => isActive group) mapped)
  = map raw_id (filter activeRaw rawGroups).
Proof.
  induction rawGroups as [|group rest IH]; intros E st mapped st'.
  - intros [= <- _]. reflexivity.
  - cbn [mapM]. unfold bind at 1.
    destruct (processGroup group E st) as [[g|e] st1] eqn:Hg; [|discriminate].
    unfold bind at 1.
    destruct (mapM processGroup rest E st1) as [[gs|e] st2] eqn:Hrest; [|discriminate].
    unfold ret. intros [= <- _].
    destruct (processGroup_result _ _ _ _ _ Hg) as (Hid & Hact & _).
    cbn [filter]. rewrite Hact.
    destruct (activeRaw group); cbn [map]; rewrite (IH _ _ _ _ Hrest); congruence.
Qed.

Lemma processGroups_keeps_active rawGroups E st processed st' :
  processGroups rawGroups E st = (Normal processed, st') ->
  map id processed = map raw_id (filter activeRaw rawGroups).
Proof.
  unfold processGroups, bind.
  destruct (mapM processGroup rawGroups E st) as [[mapped|e] st1] eqn:Hmap;
    [|discriminate].
  unfold ret. intros [= <- _]. eapply mapM_processGroup; eassumption.
Qed.

Lemma distributedAt_hasCoordinates E st k groups i group :
  hasCoordinates (distributedAt E st k groups i group).
Proof.
  unfold distributedAt, hasCoordinates, lacksCoordinates.
  destruct (coordinates group) eqn:Hc; [congruence | discriminate].
Qed.

Lemma distributedAt_id E st k groups i group :
  id (distributedAt E st k groups i group) = id group.
Proof. unfold distributedAt. now destruct (lacksCoordinates group). Qed.

Lemma distribute_result groups E st :
  exists out,
    distributeGroupsGeographically groups E st
      = (Normal out, afterDraws st (4 * missing groups)) /\
    Forall hasCoordinates out /\
    map id out = map id groups.
Proof.
  destruct (distributeFrom_run groups 0 E st) as (out & Hrun & Hlen & Hnth).
  exists out. split; [exact Hrun|]. split.
  - apply Forall_forall. intros g Hin.
    apply In_nth_error in Hin. destruct Hin as [i Hi].
    assert (Hlt : (i < List.length groups)%nat).
    { rewrite <- Hlen. apply nth_error_Some. congruence. }
    destruct (nth_error groups i) as [g0|] eqn:H0.
    2:{ apply nth_error_None in H0. lia. }
    rewrite (Hnth i g0 H0) in Hi. injection Hi as <-.
    apply distributedAt_hasCoordinates.
  - apply nth_error_ext. intros i. rewrite !nth_error_map.
    destruct (nth_error groups i) as [g0|] eqn:H0.
    + rewrite (Hnth i g0 H0). simpl. now rewrite distributedAt_id.
    + apply nth_error_None in H0. rewrite <- Hlen in H0.
      apply nth_error_None in H0. now rewrite H0.
Qed.

(** The [try]/[catch] statement always returns a list: the fallback list, or
    the outcome of the distribution over a processed batch. *)
Lemma getGroups_try_result E st :
  exists groups st',
    getGroups_try E st = (Normal (Return groups), st') /\
    (groups = fallbackGroups \/
     exists processed st1,
       distributeGroupsGeographically processed E st1 = (Normal groups, st')).
Proof.
  unfold getGroups_try, try_catch, const_, bind, fetch, seq, if_, bind,
    response_json, groupsOf, property, return_, bind.
  destruct (network E (baseURL ++ "/groups")) as [|response].
  { eexists; eexists. split; [reflexivity | now left]. }
  destruct (ok response); cbn [negb].
  2:{ eexists; eexists. split; [reflexivity | now left]. }
  destruct (json response) as [[|data]|].
  1,3:(eexists; eexists; split; [reflexivity | now left]).
  cbn [ret]. destruct (truthyOpt (doc_error data)).
  { eexists; eexists. split; [reflexivity | now left]. }
  cbn [ret throw]. destruct (doc_groups data) as [|groups|].
  1,3:(eexists; eexists; split; [reflexivity | now left]).
  cbn [ret throw].
  match goal with
  | |- context [processGroups groups E ?s] =>
      destruct (processGroups groups E s) as [[processed|e] st1]
  end.
  2:{ eexists; eexists. split; [reflexivity | now left]. }
  destruct (distribute_result processed E st1) as (out & Hrun & _).
  rewrite Hrun. eexists; eexists. split; [reflexivity|].
  right. exists processed, st1. exact Hrun.
Qed.

(** C1, where the code departs from it. On the batch of one active group
    that names no place, the [try]/[catch] statement of [getGroups] does what
    the claim says: it returns the record of the group, rebuilt for the
    first distribution point, with coordinates. [getGroups] itself never
    reaches that statement: its first statement returns the fallback list,
    for this batch and for every other, so the group is dropped with the
    whole batch. The statement in turn drops every group of a batch in
    which one group makes [processGroups] throw, as a group located at
    "Constructor" does. *)
Theorem getGroups_drops_fetched_groups :
  (exists record,
     getGroups_try (proxyAnswer [placelessGroup]) initialState
       = (Normal (Return [record]),
          afterDraws (afterRequest initialState (baseURL ++ "/groups")) 4) /\
     id record = "42" /\
     hasCoordinates record /\
     Location.neighborhood (location record) = "Dupont Circle") /\
  getGroups (proxyAnswer [placelessGroup]) initialState
    = (Normal (Some fallbackGroups), initialState) /\
  ~ In "42" (map id fallbackGroups) /\
  (forall E st, getGroups E st = (Normal (Some fallbackGroups), st)) /\
  getGroups_try (proxyAnswer [constructorGroup; placelessGroup]) initialState
    = (Normal (Return fallbackGroups),
       afterRequest initialState (baseURL ++ "/groups")).
Proof.
  split; [|split; [|split; [|split]]].
  - eexists. split; [vm_compute; reflexivity|].
    split; [reflexivity|]. split; [discriminate | reflexivity].
  - reflexivity.
  - cbn. intros H. repeat (destruct H as [H|H]; [discriminate|]). exact H.
  - intros E st. reflexivity.
  - vm_compute. reflexivity.
Qed.

(** ** Location resolver: the choice of the location string *)

Lemma meaningful_noInfo locationString :
  meaningful locationString = negb (noInfo locationString).
Proof.
  unfold meaningful, noInfo.
  destruct (truthy locationString), (trim locationString =? ""),
    (toLowerCase locationString =? "dmv area"),
    (toLowerCase locationString =? "contact for location"),
    (includes (toLowerCase locationString) "varies"); reflexivity.
Qed.

Lemma find_first {A} (f : A -> bool) (l : list A) (x : A) :
  find f l = Some x <->
  exists before after,
    l = before ++ x :: after /\ f x = true /\
    forall y, In y before -> f y = false.
Proof.
  split.
  - induction l as [|a l IH]; simpl; [discriminate|].
    destruct (f a) eqn:Ha.
    + intros [= ->]. exists [], l. repeat split; [assumption | intros y []].
    + intros H. destruct (IH H) as (before & after & -> & Hx & Hb).
      exists (a :: before), after. repeat split; [assumption|].
      intros y [<-|Hy]; [assumption | now apply Hb].
  - intros (before & after & -> & Hx & Hb).
    induction before as [|a before IH]; simpl.
    + now rewrite Hx.
    + rewrite (Hb a) by now left. apply IH. intros y Hy. apply Hb. now right.
Qed.

Lemma locationKeywords_meaningful keyword :
  In keyword locationKeywords -> meaningful keyword = true.
Proof.
  assert (H : forallb meaningful locationKeywords = true) by (vm_compute; reflexivity).
  rewrite forallb_forall in H. apply H.
Qed.

Lemma extractLocationFromName_meaningful groupName keyword :
  extractLocationFromName groupName = Some keyword -> meaningful keyword = true.
Proof.
  unfold extractLocationFromName. destruct groupName as [n|]; [|discriminate].
  destruct (negb (truthy n)); [discriminate|].
  intros H. apply find_some in H. apply locationKeywords_meaningful, H.
Qed.

Lemma extractLocation_run attributes E st :
  let locationString := selectedLocation attributes in
  if meaningful locationString then
    (exists c, extractLocation attributes E st
               = (Normal (locatedAt locationString c), afterDraws st 2)) \/
    extractLocation attributes E st = (Throw (TypeError "coords is not iterable"), st)
  else extractLocation attributes E st = (Normal noLocation, st).
Proof.
  intros locationString. unfold extractLocation. fold locationString.
  destruct (meaningful locationString); [|reflexivity].
  destruct (geocodeLocation_cases locationString E st)
    as [(place & source & _ & Hrun)|Hrun].
  - left. eexists. erewrite bind_Normal by exact Hrun. reflexivity.
  - right. erewrite bind_Throw by exact Hrun. reflexivity.
Qed.

(** C4, refuted as stated: with "DMV Area" in [location_type_preference] and
    "Bethesda, MD" in [location], the first candidate that is no sentinel is
    "Bethesda, MD", but [extractLocation] stops at "DMV Area", finds no place
    in the name and reports no location. *)
Lemma extractLocation_stops_at_first_candidate :
  specSelectedLocation sentinelThenPlace = Some "Bethesda, MD" /\
  selectedLocation sentinelThenPlace = "DMV Area" /\
  specSelectedLocation sentinelThenPlace
    <> Some (selectedLocation sentinelThenPlace) /\
  extractLocation sentinelThenPlace halfDraws initialState
  = (Normal noLocation, initialState).
Proof.
  split; [reflexivity|]. split; [reflexivity|].
  split; [discriminate | reflexivity].
Qed.

(** C4, as the code has it. [extractLocation] looks at one candidate only, the
    first field of the six that is a non-empty string. If that candidate is no
    sentinel it is the location. If it is a sentinel (blank, "dmv area",
    "contact for location", or containing "varies", in any case), or if there
    is no candidate, the location is the first keyword of [locationKeywords],
    in list order, that occurs in the lower-cased name, and that keyword is
    always geocoded; with no such keyword no location is reported. For
    "Arlington Young Professionals" without a usable field the location is
    "arlington" and [hasSpecificLocation] is set. *)
Theorem extractLocation_first_candidate (attributes : Attributes.t)
    (E : Env) (st : State) :
  let first := hd "" (filterBoolean (locationCandidates attributes)) in
  let groupName := Attributes.name attributes in
  (noInfo first = false ->
     selectedLocation attributes = first /\
     meaningful (selectedLocation attributes) = true) /\
  (noInfo first = true ->
     forall keyword, extractLocationFromName groupName = Some keyword ->
       selectedLocation attributes = keyword /\
       meaningful (selectedLocation attributes) = true) /\
  (noInfo first = true ->
     extractLocationFromName groupName = None ->
     selectedLocation attributes = first /\
     extractLocation attributes E st = (Normal noLocation, st)) /\
  (forall n keyword,
     groupName = Some n -> n <> "" ->
     (extractLocationFromName groupName = Some keyword <->
      exists before after,
        locationKeywords = before ++ keyword :: after /\
        occursIn keyword (toLowerCase n) /\
        forall earlier, In earlier before -> ~ occursIn earlier (toLowerCase n))) /\
  (meaningful (selectedLocation attributes) = true ->
     (exists c,
        extractLocation attributes E st
        = (Normal (locatedAt (selectedLocation attributes) c), afterDraws st 2)) \/
     extractLocation attributes E st
     = (Throw (TypeError "coords is not iterable"), st)) /\
  extractLocation arlingtonByName E st
  = (Normal (locatedAt "arlington"
               (offsetBy 38.8816 (-77.0910)
                  (random E (drawn st)) (random E (S (drawn st))))),
     afterDraws st 2).
Proof.
  intros first groupName.
  split; [|split; [|split; [|split; [|split]]]].
  - intros Hno. unfold selectedLocation. fold first. rewrite Hno.
    split; [reflexivity|]. now rewrite meaningful_noInfo, Hno.
  - intros Hno keyword Hkw.
    assert (Hm : meaningful keyword = true)
      by (eapply extractLocationFromName_meaningful; eassumption).
    unfold selectedLocation. fold first. fold groupName. rewrite Hno, Hkw.
    unfold orElse.
    assert (Ht : truthy keyword = true).
    { unfold meaningful in Hm. destruct (truthy keyword); [reflexivity|discriminate]. }
    rewrite Ht. split; [reflexivity | exact Hm].
  - intros Hno Hnone.
    assert (Hsel : selectedLocation attributes = first).
    { unfold selectedLocation. fold first. fold groupName. now rewrite Hno, Hnone. }
    split; [exact Hsel|].
    pose proof (extractLocation_run attributes E st) as Hrun. cbv zeta in Hrun.
    rewrite Hsel, meaningful_noInfo, Hno in Hrun. exact Hrun.
  - intros n keyword Hn Hne. rewrite Hn. unfold extractLocationFromName.
    assert (Ht : truthy n = true).
    { unfold truthy. destruct (String.eqb_spec n ""); [contradiction | reflexivity]. }
    rewrite Ht. cbn [negb]. rewrite find_first.
    split; intros (before & after & Hsplit & Hocc & Hfirst);
      exists before, after; (split; [exact Hsplit|]); split.
    + now apply includes_iff.
    + intros earlier Hin. apply includes_false_iff. now apply Hfirst.
    + now apply includes_iff.
    + intros earlier Hin. apply includes_false_iff. now apply Hfirst.
  - intros Hm. pose proof (extractLocation_run attributes E st) as Hrun.
    cbv zeta in Hrun. rewrite Hm in Hrun. exact Hrun.
  - unfold extractLocation.
    change (selectedLocation arlingtonByName) with "arlington".
    change (meaningful "arlington") with true. cbv iota.
    erewrite bind_Normal.
    2:{ rewrite geocodeLocation_follows_order by (left; discriminate).
        apply addRandomOffset_pair. }
    reflexivity.
Qed.

(** ** The proxy's filter *)

Lemma notOpt_true_iff (a : option bool) : notOpt a = true <-> a <> Some true.
Proof. destruct a as [[|]|]; simpl; split; congruence. Qed.

Lemma Proxy_keep_iff group :
  Proxy.keep group = true <->
  Attributes.archived (attributesOf group) <> Some true /\
  truthyOpt (Attributes.public_church_center_web_url (attributesOf group)) = true /\
  Attributes.enrollment (attributesOf group) = Some "open".
Proof.
  unfold Proxy.keep. rewrite !andb_true_iff, notOpt_true_iff.
  destruct (Attributes.enrollment (attributesOf group)) as [e|].
  - destruct (String.eqb_spec e "open") as [->|ne].
    + tauto.
    + split; [intros [_ H]; discriminate | intros (_ & _ & H); congruence].
  - split; [intros [_ H]; discriminate | intros (_ & _ & H); discriminate].
Qed.

Lemma ProxyPAT_keep_iff group :
  ProxyPAT.keep group = true <->
  Attributes.archived (attributesOf group) <> Some true.
Proof. unfold ProxyPAT.keep. apply notOpt_true_iff. Qed.

Lemma processGroupData_archived group :
  notOpt (Attributes.archived (attributesOf group)) = true ->
  Attributes.archived (attributesOf (Proxy.processGroupData group)) = Some false.
Proof.
  intros H.
  change (Attributes.archived (attributesOf (Proxy.processGroupData group)))
    with (Some (orElseBool (Attributes.archived (attributesOf group)) false)).
  destruct (Attributes.archived (attributesOf group)) as [[|]|];
    [discriminate | reflexivity | reflexivity].
Qed.

Lemma Proxy_fetchGroups_outcome clientId secret E st :
  Proxy.fetchGroups clientId secret E st =
  (match network E Proxy.apiUrl with
   | Rejected => Throw FetchError
   | Resolved response =>
       if ok response then
         match json response with
         | Some responseData =>
             match fetchedGroups responseData with
             | Some groups =>
                 Normal (map Proxy.processGroupData (filter Proxy.keep groups))
             | None => Throw (unreadable responseData)
             end
         | None => Throw SyntaxError
         end
       else Throw (HttpError "Planning Center API error:" (status response)
                             (text response))
   end, afterRequest st Proxy.apiUrl).
Proof.
  unfold Proxy.fetchGroups, bind, fetch, response_json, property, afterRequest,
    fetchedGroups, unreadable.
  destruct (network E Proxy.apiUrl) as [|response]; [reflexivity|].
  destruct (ok response); [|reflexivity].
  destruct (json response) as [[|doc]|]; try reflexivity.
  cbn [negb ret]. destruct (doc_data doc); reflexivity.
Qed.

Lemma ProxyPAT_fetchGroups_outcome appId secret E st :
  ProxyPAT.fetchGroups appId secret E st =
  (match network E Proxy.apiUrl with
   | Rejected => Throw FetchError
   | Resolved response =>
       if ok response then
         match json response with
         | Some responseData =>
             match fetchedGroups responseData with
             | Some groups =>
                 Normal (map ProxyPAT.processGroupData
                             (filter ProxyPAT.keep groups))
             | None => Throw (unreadable responseData)
             end
         | None => Throw SyntaxError
         end
       else Throw (HttpError "Planning Center API error:" (status response)
                             (text response))
   end, afterRequest st Proxy.apiUrl).
Proof.
  unfold ProxyPAT.fetchGroups, ProxyPAT.apiUrl, bind, fetch, response_json,
    property, afterRequest, fetchedGroups, unreadable.
  destruct (network E Proxy.apiUrl) as [|response]; [reflexivity|].
  destruct (ok response); [|reflexivity].
  destruct (json response) as [[|doc]|]; try reflexivity.
  cbn [negb ret]. destruct (doc_data doc); reflexivity.
Qed.

Lemma notArchived_iff group :
  notArchived group = true <->
  Attributes.archived (attributesOf group) <> Some true.
Proof.
  unfold notArchived.
  destruct (Attributes.archived (attributesOf group)) as [[|]|];
    split; congruence.
Qed.

Lemma openAndPublished_iff group :
  openAndPublished group = true <->
  Attributes.archived (attributesOf group) <> Some true /\
  (exists url,
     Attributes.public_church_center_web_url (attributesOf group) = Some url /\
     url <> "") /\
  Attributes.enrollment (attributesOf group) = Some "open".
Proof.
  unfold openAndPublished. rewrite !andb_true_iff, notArchived_iff.
  assert (Hurl :
    match Attributes.public_church_center_web_url (attributesOf group) with
    | Some url => negb (url =? "")
    | None => false
    end = true <->
    exists url,
      Attributes.public_church_center_web_url (attributesOf group) = Some url /\
      url <> "").
  { destruct (Attributes.public_church_center_web_url (attributesOf group))
      as [url|].
    - destruct (String.eqb_spec url "") as [->|Hne]; cbn [negb].
      + split; [discriminate|]. intros (url & [= <-] & H). congruence.
      + split; [|reflexivity]. intros _. now exists url.
    - split; [discriminate|]. intros (url & H & _). discriminate. }
  assert (Henr :
    match Attributes.enrollment (attributesOf group) with
    | Some enrollment => enrollment =? "open"
    | None => false
    end = true <->
    Attributes.enrollment (attributesOf group) = Some "open").
  { destruct (Attributes.enrollment (attributesOf group)) as [e|].
    - destruct (String.eqb_spec e "open") as [->|Hne];
        split; congruence.
    - split; discriminate. }
  rewrite Hurl, Henr. tauto.
Qed.

Lemma ProxyPAT_keep_notArchived group : ProxyPAT.keep group = notArchived group.
Proof. reflexivity. Qed.

Lemma Proxy_keep_openAndPublished group :
  Proxy.keep group = openAndPublished group.
Proof. reflexivity. Qed.

(** C10, refuted as stated: the proxy of [netlify/functions/planning-center.js]
    forwards nothing of a batch that holds one group with [archived] false and
    closed enrollment; the personal-access-token variant forwards it. *)
Lemma Proxy_fetchGroups_drops_closed_enrollment :
  Attributes.archived (attributesOf closedGroup) = Some false /\
  Proxy.fetchGroups "id" "secret" (upstream [closedGroup]) initialState
  = (Normal [], afterRequest initialState Proxy.apiUrl) /\
  ProxyPAT.fetchGroups "id" "secret" (upstream [closedGroup]) initialState
  = (Normal [ProxyPAT.processGroupData closedGroup],
     afterRequest initialState ProxyPAT.apiUrl).
Proof. repeat split. Qed.

(** C10, as the code has it. On an upstream answer with an OK status and a
    JSON body whose [data] is the array [fetched] (or is absent, and
    [fetched] is empty), the personal-access-token variant of [fetchGroups]
    returns the list made of the fetched groups whose [archived] is not
    true, whatever their enrollment and public URL, each passed through
    [processGroupData], in the order fetched and as often as fetched; the
    variant of [netlify/functions/planning-center.js] returns the list made
    in the same way of the fetched groups whose [archived] is not true,
    whose public URL is a non-empty string and whose enrollment is "open".
    Every forwarded record has [archived] false. *)
Theorem fetchGroups_forwarded (E : Env) (st : State) (clientId secret : string)
    (response : Response) (responseData : JsonValue) (fetched : list RawGroup)
    (Hnet : network E Proxy.apiUrl = Resolved response)
    (Hok : ok response = true)
    (Hjson : json response = Some responseData)
    (Hdata : fetchedGroups responseData = Some fetched) :
  ProxyPAT.fetchGroups clientId secret E st
    = (Normal (map ProxyPAT.processGroupData (filter notArchived fetched)),
       afterRequest st ProxyPAT.apiUrl) /\
  Proxy.fetchGroups clientId secret E st
    = (Normal (map Proxy.processGroupData (filter openAndPublished fetched)),
       afterRequest st Proxy.apiUrl) /\
  (forall group,
     notArchived group = true <->
     Attributes.archived (attributesOf group) <> Some true) /\
  (forall group,
     openAndPublished group = true <->
     Attributes.archived (attributesOf group) <> Some true /\
     (exists url,
        Attributes.public_church_center_web_url (attributesOf group) = Some url /\
        url <> "") /\
     Attributes.enrollment (attributesOf group) = Some "open") /\
  Forall (fun group => Attributes.archived (attributesOf group) = Some false)
    (map ProxyPAT.processGroupData (filter notArchived fetched)).
Proof.
  split; [|split; [|split; [|split]]].
  - rewrite ProxyPAT_fetchGroups_outcome, Hnet, Hok, Hjson, Hdata.
    rewrite (filter_ext _ _ ProxyPAT_keep_notArchived). reflexivity.
  - rewrite Proxy_fetchGroups_outcome, Hnet, Hok, Hjson, Hdata.
    rewrite (filter_ext _ _ Proxy_keep_openAndPublished). reflexivity.
  - exact notArchived_iff.
  - exact openAndPublished_iff.
  - apply Forall_forall. intros group Hin. apply in_map_iff in Hin.
    destruct Hin as (raw & <- & Hin). apply filter_In in Hin.
    apply processGroupData_archived. apply Hin.
Qed.

Lemma fetchGroups_forwarded_witness :
  ProxyPAT.fetchGroups "id" "secret" (upstream [closedGroup; openGroup])
    initialState
    = (Normal [ProxyPAT.processGroupData closedGroup;
               ProxyPAT.processGroupData openGroup],
       afterRequest initialState ProxyPAT.apiUrl) /\
  Proxy.fetchGroups "id" "secret" (upstream [closedGroup; openGroup])
    initialState
    = (Normal [Proxy.processGroupData openGroup],
       afterRequest initialState Proxy.apiUrl).
Proof.
  destruct (fetchGroups_forwarded (upstream [closedGroup; openGroup]) initialState
              "id" "secret" _ _ [closedGroup; openGroup] eq_refl eq_refl eq_refl
              eq_refl)
    as (Hpat & Hfull & _).
  split; [exact Hpat | exact Hfull].
Defined.

(** ** Worked examples *)

Example dupont_circle_neighborhood :
  extractNeighborhood "Dupont Circle, DC" = "Dupont Circle".
Proof. reflexivity. Qed.

Example dupont_circle_geocoded E st :
  geocodeLocation "Dupont Circle, DC" E st
  = addRandomOffset (CoordPair 38.9097 (-77.0365)) E st.
Proof. reflexivity. Qed.

Example unknown_place_geocoded E st :
  geocodeLocation "Somewhere Else" E st
  = addRandomOffset (CoordPair 38.9072 (-77.0369)) E st.
Proof. reflexivity. Qed.

Example state_keyword_geocoded E st :
  geocodeLocation "Near the MD line" E st
  = addRandomOffset (CoordPair 38.9907 (-77.0261)) E st.
Proof. reflexivity. Qed.

Example thirteen_placeless_groups :
  match
    (let* processed := processGroups (repeat placelessGroup 13) in
     distributeGroupsGeographically processed) halfDraws initialState
  with
  | (Normal out, _) =>
      map (fun group => Location.neighborhood (location group)) out
  | (Throw _, _) => []
  end
  = [ "Dupont Circle"; "Arlington"; "Columbia Heights"; "Bethesda"; "Alexandria";
      "Silver Spring"; "Capitol Hill"; "Fairfax"; "Georgetown"; "Adams Morgan";
      "Rockville"; "Takoma Park"; "Dupont Circle" ].
Proof. vm_compute. reflexivity. Qed.

(** * Further properties of the code *)

(** ** Distributor: second pass, kept fields, spread *)

Lemma distributeFrom_identity groups :
  Forall hasCoordinates groups ->
  forall distributionIndex E st,
    distributeFrom distributionIndex groups E st = (Normal groups, st).
Proof.
  induction 1 as [|g rest Hg _ IH]; intros distributionIndex E st; [reflexivity|].
  cbn [distributeFrom]. unfold bind at 1. rewrite distributeGroup_run.
  unfold hasCoordinates in Hg. unfold lacksCoordinates.
  destruct (coordinates g) eqn:Hc; [|congruence].
  cbn [fst snd]. erewrite bind_Normal by apply IH. reflexivity.
Qed.

Lemma missing_none groups : Forall hasCoordinates groups -> missing groups = 0%nat.
Proof.
  unfold missing. induction 1 as [|g rest Hg _ IH]; [reflexivity|].
  cbn [filter]. unfold lacksCoordinates at 1. unfold hasCoordinates in Hg.
  destruct (coordinates g); [exact IH | congruence].
Qed.

(** X1. A list that comes out of [distributeGroupsGeographically] is a fixed
    point of it: a second pass, in any environment and state, returns the
    list unchanged and draws no random value. *)
Theorem distributeGroupsGeographically_second_pass (E : Env) (st : State)
    (groups : list GroupRecord) :
  exists out,
    distributeGroupsGeographically groups E st
      = (Normal out, afterDraws st (4 * missing groups)) /\
    missing out = 0%nat /\
    forall E' st', distributeGroupsGeographically out E' st' = (Normal out, st').
Proof.
  destruct (distribute_result groups E st) as (out & Hrun & Hall & _).
  exists out. split; [exact Hrun|]. split.
  - now apply missing_none.
  - intros E' st'. unfold distributeGroupsGeographically.
    now apply distributeFrom_identity.
Qed.

Lemma distribute_keeps_field {A} (f : GroupRecord -> A) groups E st out st' :
  (forall E0 group point d, f (distributed E0 group point d) = f group) ->
  distributeGroupsGeographically groups E st = (Normal out, st') ->
  map f out = map f groups.
Proof.
  intros Hf Hrun.
  destruct (distributeFrom_run groups 0 E st) as (out' & Hrun' & Hlen & Hnth).
  unfold distributeGroupsGeographically in Hrun. rewrite Hrun in Hrun'.
  injection Hrun' as <- _.
  apply nth_error_ext. intros i. rewrite !nth_error_map.
  destruct (nth_error groups i) as [g|] eqn:Hg.
  - rewrite (Hnth i g Hg). simpl. f_equal.
    unfold distributedAt. destruct (lacksCoordinates g); [apply Hf | reflexivity].
  - apply nth_error_None in Hg. rewrite <- Hlen in Hg.
    apply nth_error_None in Hg. now rewrite Hg.
Qed.

(** X2. [distributeGroupsGeographically] changes nothing but the location and
    the coordinates: identifier, name, description, group type, meeting day,
    contact, member count, activity flag and update time of every record are
    those of the input, position by position. *)
Theorem distributeGroupsGeographically_keeps_fields (E : Env) (st : State)
    (groups : list GroupRecord) :
  exists out,
    distributeGroupsGeographically groups E st
      = (Normal out, afterDraws st (4 * missing groups)) /\
    map id out = map id groups /\
    map name out = map name groups /\
    map description out = map description groups /\
    map groupType out = map groupType groups /\
    map meetingDay out = map meetingDay groups /\
    map contactInfo out = map contactInfo groups /\
    map memberCount out = map memberCount groups /\
    map isActive out = map isActive groups /\
    map lastUpdated out = map lastUpdated groups.
Proof.
  destruct (distribute_result groups E st) as (out & Hrun & _ & _).
  exists out. split; [exact Hrun|].
  repeat split; eapply distribute_keeps_field; try exact Hrun; reflexivity.
Qed.

Lemma missing_app l1 l2 : missing (l1 ++ l2) = (missing l1 + missing l2)%nat.
Proof. unfold missing. now rewrite filter_app, length_app. Qed.

Lemma missing_firstn_lt groups i j gi :
  nth_error groups i = Some gi -> coordinates gi = None -> (i < j)%nat ->
  (missing (firstn i groups) < missing (firstn j groups))%nat.
Proof.
  intros Hi Hc Hlt.
  destruct (nth_error_split groups i Hi) as (l1 & l2 & -> & Hlen).
  assert (H1 : firstn i (l1 ++ gi :: l2) = l1).
  { rewrite <- Hlen. rewrite firstn_app, Nat.sub_diag, firstn_all. simpl.
    apply app_nil_r. }
  assert (H2 : firstn j (l1 ++ gi :: l2) = l1 ++ gi :: firstn (j - S i) l2).
  { rewrite firstn_app, Hlen.
    rewrite firstn_all2 by lia.
    replace (j - i)%nat with (S (j - S i)) by lia. reflexivity. }
  rewrite H1, H2, missing_app.
  unfold missing at 3. cbn [filter]. unfold lacksCoordinates at 1. rewrite Hc.
  cbn [List.length]. lia.
Qed.

Lemma missing_firstn_le groups j : (missing (firstn j groups) <= missing groups)%nat.
Proof.
  rewrite <- (firstn_skipn j groups) at 2. rewrite missing_app. lia.
Qed.

Lemma missing_firstn_lt_all groups j gj :
  nth_error groups j = Some gj -> coordinates gj = None ->
  (missing (firstn j groups) < missing groups)%nat.
Proof.
  intros Hj Hc.
  pose proof (missing_firstn_lt groups j (S j) gj Hj Hc (Nat.lt_succ_diag_r j)).
  pose proof (missing_firstn_le groups (S j)). lia.
Qed.

Lemma point_names_distinct a b :
  (a < 12)%nat -> (b < 12)%nat -> a <> b ->
  point_name (pointAt a) <> point_name (pointAt b).
Proof.
  assert (H : forallb (fun a => forallb (fun b =>
                (a =? b)%nat ||
                negb (String.eqb (point_name (pointAt a)) (point_name (pointAt b))))
              (List.seq 0 12)) (List.seq 0 12) = true) by (vm_compute; reflexivity).
  intros Ha Hb Hab Heq.
  rewrite forallb_forall in H.
  specialize (H a). rewrite forallb_forall in H.
  assert (Hina : In a (List.seq 0 12)) by (apply in_seq; lia).
  assert (Hinb : In b (List.seq 0 12)) by (apply in_seq; lia).
  specialize (H Hina b Hinb).
  apply orb_true_iff in H. destruct H as [H|H].
  - apply Nat.eqb_eq in H. contradiction.
  - rewrite Heq, String.eqb_refl in H. discriminate.
Qed.

(** X3. When at most twelve records lack coordinates, no two of them are sent
    to the same distribution point: the rebuilt records at two different
    positions carry different neighborhoods. *)
Theorem distributeGroupsGeographically_spreads (E : Env) (st : State)
    (groups : list GroupRecord) (i j : nat) (gi gj : GroupRecord)
    (Hfew : (missing groups <= 12)%nat)
    (Hij : (i < j)%nat)
    (Hi : nth_error groups i = Some gi)
    (Hj : nth_error groups j = Some gj)
    (Hci : coordinates gi = None)
    (Hcj : coordinates gj = None) :
  exists out oi oj,
    distributeGroupsGeographically groups E st
      = (Normal out, afterDraws st (4 * missing groups)) /\
    nth_error out i = Some oi /\
    nth_error out j = Some oj /\
    Location.neighborhood (location oi) <> Location.neighborhood (location oj).
Proof.
  destruct (distributeFrom_run groups 0 E st) as (out & Hrun & _ & Hnth).
  exists out. eexists; eexists. split; [exact Hrun|].
  split; [apply (Hnth i gi Hi)|]. split; [apply (Hnth j gj Hj)|].
  unfold distributedAt, lacksCoordinates. rewrite Hci, Hcj.
  unfold distributed. cbn [location Location.neighborhood].
  rewrite !Nat.add_0_l.
  pose proof (missing_firstn_lt groups i j gi Hi Hci Hij).
  pose proof (missing_firstn_lt_all groups j gj Hj Hcj).
  rewrite !Nat.mod_small by lia.
  apply point_names_distinct; lia.
Qed.

Lemma distributeGroupsGeographically_spreads_witness :
  processGroups twoPlaceless halfDraws initialState
    = (Normal twoPlacelessRecords, initialState) /\
  exists out oi oj,
    distributeGroupsGeographically twoPlacelessRecords halfDraws initialState
      = (Normal out, afterDraws initialState (4 * missing twoPlacelessRecords)) /\
    nth_error out 0 = Some oi /\
    nth_error out 1 = Some oj /\
    Location.neighborhood (location oi) <> Location.neighborhood (location oj).
Proof.
  split; [reflexivity|].
  assert (Hfew : (missing twoPlacelessRecords <= 12)%nat) by (vm_compute; lia).
  assert (Hij : (0 < 1)%nat) by lia.
  exact (distributeGroupsGeographically_spreads halfDraws initialState
           twoPlacelessRecords 0 1 _ _ Hfew Hij eq_refl eq_refl eq_refl eq_refl).
Defined.

(** ** The processed batch and its distribution *)









(** ** A location read from the name *)

(** X5. A keyword that [extractLocationFromName] finds in a name is always
    geocoded, without exception: to its own gazetteer entry, or to the entry
    of "arlington" for "northern virginia", "nova" and "virginia" and to that
    of "silver spring" for "maryland". *)
Theorem name_keyword_geocoded (groupName : option string) (keyword : string)
    (E : Env) (st : State)
    (Hname : extractLocationFromName groupName = Some keyword) :
  exists lat lng,
    ownProperty dmvLocations (resolvedPlace keyword) = Some (lat, lng) /\
    geocodeLocation keyword E st = addRandomOffset (CoordPair lat lng) E st.
Proof.
  assert (Hin : In keyword locationKeywords).
  { unfold extractLocationFromName in Hname.
    destruct groupName as [n|]; [|discriminate].
    destruct (negb (truthy n)); [discriminate|].
    apply find_some in Hname. apply Hname. }
  clear Hname. unfold locationKeywords in Hin.
  repeat (destruct Hin as [<-|Hin];
          [eexists; eexists; split; [lazy; reflexivity | reflexivity]|]).
  destruct Hin.
Qed.

Lemma name_keyword_geocoded_witness :
  extractLocationFromName (Some "Arlington Young Professionals") = Some "arlington" /\
  exists lat lng,
    ownProperty dmvLocations "arlington" = Some (lat, lng) /\
    geocodeLocation "arlington" halfDraws initialState
    = addRandomOffset (CoordPair lat lng) halfDraws initialState.
Proof.
  split; [reflexivity|].
  exact (name_keyword_geocoded (Some "Arlington Young Professionals") "arlington"
           halfDraws initialState eq_refl).
Defined.

(** ** The [try]/[catch] of [getGroups]: requests and answers *)

Lemma geocodeLocation_requests locationString E st :
  requests (snd (geocodeLocation locationString E st)) = requests st.
Proof.
  destruct (geocodeLocation_cases locationString E st)
    as [(place & source & _ & H)|H]; rewrite H; reflexivity.
Qed.

Lemma extractLocation_requests attributes E st :
  requests (snd (extractLocation attributes E st)) = requests st.
Proof.
  pose proof (extractLocation_run attributes E st) as H. cbv zeta in H.
  destruct (meaningful (selectedLocation attributes)).
  - destruct H as [[c H]|H]; rewrite H; reflexivity.
  - rewrite H. reflexivity.
Qed.

Lemma processGroup_requests group E st :
  requests (snd (processGroup group E st)) = requests st.
Proof.
  unfold processGroup, bind.
  pose proof (extractLocation_requests (attributesOf group) E st) as H.
  destruct (extractLocation (attributesOf group) E st) as [[loc|e] st1];
    exact H.
Qed.

Lemma mapM_processGroup_requests rawGroups : forall E st,
  requests (snd (mapM processGroup rawGroups E st)) = requests st.
Proof.
  induction rawGroups as [|group rest IH]; intros E st; [reflexivity|].
  cbn [mapM]. unfold bind at 1.
  pose proof (processGroup_requests group E st) as Hg.
  destruct (processGroup group E st) as [[g|e] st1]; [|exact Hg].
  unfold bind at 1. pose proof (IH E st1) as Hrest.
  destruct (mapM processGroup rest E st1) as [[gs|e] st2]; simpl in *; congruence.
Qed.

Lemma processGroups_requests rawGroups E st :
  requests (snd (processGroups rawGroups E st)) = requests st.
Proof.
  unfold processGroups, bind.
  pose proof (mapM_processGroup_requests rawGroups E st) as H.
  destruct (mapM processGroup rawGroups E st) as [[mapped|e] st1]; exact H.
Qed.

(** X6. Whatever the network answers, the [try]/[catch] of [getGroups]
    returns a list (it never throws and never falls through) after exactly
    one request, to the [groups] endpoint of the proxy: no failure is
    retried. *)
Theorem getGroups_try_single_request (E : Env) (st : State) :
  exists groups st',
    getGroups_try E st = (Normal (Return groups), st') /\
    requests st' = (baseURL ++ "/groups")%string :: requests st.
Proof.
  unfold getGroups_try, try_catch, const_, bind, fetch, seq, if_, bind,
    response_json, groupsOf, property, return_, bind.
  destruct (network E (baseURL ++ "/groups")) as [|response].
  { eexists; eexists. split; reflexivity. }
  destruct (ok response); cbn [negb].
  2:{ eexists; eexists. split; reflexivity. }
  destruct (json response) as [[|data]|].
  1,3:(eexists; eexists; split; reflexivity).
  cbn [ret]. destruct (truthyOpt (doc_error data)).
  { eexists; eexists. split; reflexivity. }
  cbn [ret throw]. destruct (doc_groups data) as [|groups|].
  1,3:(eexists; eexists; split; reflexivity).
  cbn [ret throw].
  match goal with
  | |- context [processGroups groups E ?s] =>
      pose proof (processGroups_requests groups E s) as Hreq;
      destruct (processGroups groups E s) as [[processed|e] st1]
  end.
  2:{ eexists; eexists. split; [reflexivity | exact Hreq]. }
  destruct (distribute_result processed E st1) as (out & Hrun & _).
  rewrite Hrun. eexists; eexists. split; [reflexivity | exact Hreq].
Qed.

(** X7. On an OK answer with a JSON body that has no [error] and an array
    [groups], the [try]/[catch] of [getGroups] returns the distribution of the
    processed batch, one record for each raw group with [archived === false],
    in order; if processing throws, the fallback list. An empty array gives
    the empty list, not the fallback list. *)
Theorem getGroups_try_on_answer (E : Env) (st : State) (response : Response)
    (data : JsonDoc) (rawGroups : list RawGroup)
    (Hnet : network E (baseURL ++ "/groups") = Resolved response)
    (Hok : ok response = true)
    (Hjson : json response = Some (JsonObject data))
    (Herror : truthyOpt (doc_error data) = false)
    (Hgroups : doc_groups data = Groups rawGroups) :
  match processGroups rawGroups E (afterRequest st (baseURL ++ "/groups")) with
  | (Normal processed, st1) =>
      exists out,
        distributeGroupsGeographically processed E st1
          = (Normal out, afterDraws st1 (4 * missing processed)) /\
        getGroups_try E st
          = (Normal (Return out), afterDraws st1 (4 * missing processed)) /\
        map id out = map raw_id (filter activeRaw rawGroups)
  | (Throw _, st1) =>
      getGroups_try E st = (Normal (Return fallbackGroups), st1)
  end /\
  (rawGroups = [] ->
   getGroups_try E st
   = (Normal (Return []), afterRequest st (baseURL ++ "/groups"))).
Proof.
  assert (Hrun : getGroups_try E st =
    match processGroups rawGroups E (afterRequest st (baseURL ++ "/groups")) with
    | (Normal processed, st1) =>
        match distributeGroupsGeographically processed E st1 with
        | (Normal out, st2) => (Normal (Return out), st2)
        | (Throw e, st2) => (Normal (Return fallbackGroups), st2)
        end
    | (Throw _, st1) => (Normal (Return fallbackGroups), st1)
    end).
  { unfold getGroups_try, try_catch, const_, bind, fetch, seq, if_, bind,
      response_json, groupsOf, property, return_, bind.
    rewrite Hnet, Hok, Hjson. cbn [negb ret]. rewrite Herror, Hgroups.
    cbn [ret throw]. unfold afterRequest.
    destruct (processGroups rawGroups E _) as [[processed|e] st1]; [|reflexivity].
    destruct (distributeGroupsGeographically processed E st1) as [[out|e] st2];
      reflexivity. }
  split.
  - destruct (processGroups rawGroups E (afterRequest st (baseURL ++ "/groups")))
      as [[processed|e] st1] eqn:Hproc; [|exact Hrun].
    destruct (distribute_result processed E st1) as (out & Hout & _ & Hids).
    exists out. split; [exact Hout|]. split.
    + rewrite Hrun, Hout. reflexivity.
    + rewrite Hids. eapply processGroups_keeps_active; eassumption.
  - intros ->. rewrite Hrun. reflexivity.
Qed.

Lemma getGroups_try_on_answer_witness :
  getGroups_try (proxyAnswer []) initialState
  = (Normal (Return []), afterRequest initialState (baseURL ++ "/groups")).
Proof.
  exact (proj2 (getGroups_try_on_answer (proxyAnswer []) initialState _ _ []
                  eq_refl eq_refl eq_refl eq_refl eq_refl) eq_refl).
Defined.

(** ** The Netlify function *)

(** X8. A request whose method is not GET is answered by both variants of the
    handler without any request to the upstream and whatever the path and the
    credentials: OPTIONS with status 200 and an empty body, every other
    method with status 405 and the error "Method not allowed"; the answer
    carries the CORS headers. *)
Theorem handler_other_methods (process : Process) (event : Event)
    (E : Env) (st : State)
    (Hmethod : httpMethod event <> "GET") :
  exists answer,
    Proxy.handler process event E st = (Normal (Some answer), st) /\
    ProxyPAT.handler process event E st = (Normal (Some answer), st) /\
    headers answer = corsHeaders /\
    (httpMethod event = "OPTIONS" ->
       statusCode answer = 200%Z /\ body answer = EmptyBody) /\
    (httpMethod event <> "OPTIONS" ->
       statusCode answer = 405%Z /\
       body answer = ErrorBody "Method not allowed" None).
Proof.
  unfold Proxy.handler, ProxyPAT.handler, function, seq, if_, return_, bind, ret.
  destruct (String.eqb_spec (httpMethod event) "OPTIONS") as [Hopt|Hopt].
  - eexists. split; [reflexivity|]. split; [reflexivity|].
    split; [reflexivity|]. split; [intros _; split; reflexivity|].
    intros H. contradiction.
  - destruct (String.eqb_spec (httpMethod event) "GET") as [Hget|Hget];
      [contradiction|]. cbn [negb].
    eexists. split; [reflexivity|]. split; [reflexivity|].
    split; [reflexivity|]. split; [intros H; contradiction|].
    intros _. split; reflexivity.
Qed.

Lemma handler_other_methods_witness :
  exists answer,
    Proxy.handler configured {| httpMethod := "POST"; path := "/groups" |}
      (upstream [openGroup]) initialState
    = (Normal (Some answer), initialState) /\
    statusCode answer = 405%Z.
Proof.
  assert (Hmethod : httpMethod {| httpMethod := "POST"; path := "/groups" |} <> "GET")
    by discriminate.
  destruct (handler_other_methods configured
              {| httpMethod := "POST"; path := "/groups" |}
              (upstream [openGroup]) initialState Hmethod)
    as (answer & Hrun & _ & _ & _ & H405).
  exists answer. split; [exact Hrun|]. apply H405. discriminate.
Defined.

Lemma Proxy_handler_GET process event E st :
  httpMethod event = "GET" ->
  Proxy.handler process event E st =
  if credentialsOk process then
    if routeOk event then
      match Proxy.fetchGroups (orElse (PLANNING_CENTER_CLIENT_ID process) "")
                              (orElse (PLANNING_CENTER_SECRET process) "") E st with
      | (Normal data, st') =>
          (Normal (Some {| statusCode := 200; headers := corsHeaders;
                           body := GroupsBody data (now process) |}), st')
      | (Throw error, st') =>
          (Normal (Some {| statusCode := 500; headers := corsHeaders;
                           body := ErrorBody "Failed to fetch data from Planning Center"
                                             (Some error) |}), st')
      end
    else
      (Normal (Some {| statusCode := 500; headers := corsHeaders;
                       body := ErrorBody "Failed to fetch data from Planning Center"
                                 (Some (ErrorMsg ("Unknown endpoint: "
                                    ++ removeFirst (path event) functionPath))) |}),
       st)
  else
    (Normal (Some {| statusCode := 500; headers := corsHeaders;
                     body := ErrorBody "Failed to fetch data from Planning Center"
                               (Some (ErrorMsg
                                  ("Missing Planning Center API credentials. CLIENT_ID: "
                                   ++ showBool (truthyOpt (PLANNING_CENTER_CLIENT_ID process))
                                   ++ ", SECRET: "
                                   ++ showBool (truthyOpt (PLANNING_CENTER_SECRET process))))) |}),
     st).
Proof.
  intros Hget.
  unfold Proxy.handler, Proxy.handler_try, function, seq, if_, return_, const_,
    try_catch, bind, ret, throw, credentialsOk, routeOk.
  rewrite Hget. cbn [String.eqb Ascii.eqb Bool.eqb negb].
  destruct (truthyOpt (PLANNING_CENTER_CLIENT_ID process));
    destruct (truthyOpt (PLANNING_CENTER_SECRET process)); cbn [negb orb andb];
    try reflexivity.
  destruct ((removeFirst (path event) functionPath =? "/groups")
            || (removeFirst (path event) functionPath =? "/groups/"));
    [|reflexivity].
  destruct (Proxy.fetchGroups _ _ E st) as [[data|e] st']; reflexivity.
Qed.

Lemma ProxyPAT_handler_GET process event E st :
  httpMethod event = "GET" ->
  ProxyPAT.handler process event E st =
  if tokenOk process then
    if routeOk event then
      match ProxyPAT.fetchGroups (orElse (PLANNING_CENTER_APP_ID process) "")
                                 (orElse (PLANNING_CENTER_SECRET process) "") E st with
      | (Normal data, st') =>
          (Normal (Some {| statusCode := 200; headers := corsHeaders;
                           body := GroupsBody data (now process) |}), st')
      | (Throw error, st') =>
          (Normal (Some {| statusCode := 500; headers := corsHeaders;
                           body := ErrorBody "Failed to fetch data from Planning Center"
                                             (Some error) |}), st')
      end
    else
      (Normal (Some {| statusCode := 500; headers := corsHeaders;
                       body := ErrorBody "Failed to fetch data from Planning Center"
                                 (Some (ErrorMsg ("Unknown endpoint: "
                                    ++ removeFirst (path event) functionPath))) |}),
       st)
  else
    (Normal (Some {| statusCode := 500; headers := corsHeaders;
                     body := ErrorBody "Failed to fetch data from Planning Center"
                               (Some (ErrorMsg
                                  ("Missing Planning Center PAT credentials. APP_ID: "
                                   ++ showBool (truthyOpt (PLANNING_CENTER_APP_ID process))
                                   ++ ", SECRET: "
                                   ++ showBool (truthyOpt (PLANNING_CENTER_SECRET process))))) |}),
     st).
Proof.
  intros Hget.
  unfold ProxyPAT.handler, ProxyPAT.handler_try, function, seq, if_, return_,
    const_, try_catch, bind, ret, throw, tokenOk, routeOk.
  rewrite Hget. cbn [String.eqb Ascii.eqb Bool.eqb negb].
  destruct (truthyOpt (PLANNING_CENTER_APP_ID process));
    destruct (truthyOpt (PLANNING_CENTER_SECRET process)); cbn [negb orb andb];
    try reflexivity.
  destruct ((removeFirst (path event) functionPath =? "/groups")
            || (removeFirst (path event) functionPath =? "/groups/"));
    [|reflexivity].
  destruct (ProxyPAT.fetchGroups _ _ E st) as [[data|e] st']; reflexivity.
Qed.

(** X9. A GET request is always answered by the handler of
    [netlify/functions/planning-center.js], with the CORS headers and with
    status 200 or 500, never by an exception. The status is 200 exactly when
    both credentials are set, the path selects the groups route and the
    upstream answers with an OK status and a JSON body other than [null]
    whose [data] is an array of groups, or is absent or falsy; the body then
    holds the groups that [fetchGroups] forwards and the time of the answer.
    With a credential missing or another route the upstream is not
    contacted; otherwise it is contacted once. *)
Theorem Proxy_handler_GET_answer (process : Process) (event : Event)
    (E : Env) (st : State)
    (Hget : httpMethod event = "GET") :
  exists answer st',
    Proxy.handler process event E st = (Normal (Some answer), st') /\
    headers answer = corsHeaders /\
    (statusCode answer = 200 \/ statusCode answer = 500)%Z /\
    (statusCode answer = 200%Z <->
       credentialsOk process = true /\ routeOk event = true /\
       exists groups, upstreamAnswered E groups) /\
    (forall groups,
       credentialsOk process = true -> routeOk event = true ->
       upstreamAnswered E groups ->
       body answer
       = GroupsBody (map Proxy.processGroupData (filter Proxy.keep groups))
                    (now process)) /\
    (credentialsOk process && routeOk event = false -> st' = st) /\
    (credentialsOk process && routeOk event = true ->
       st' = afterRequest st Proxy.apiUrl).
Proof.
  rewrite (Proxy_handler_GET process event E st Hget).
  destruct (credentialsOk process); cbn [andb].
  2:{ eexists; eexists. split; [reflexivity|]. split; [reflexivity|].
      split; [now right|]. split; [split; [discriminate | intros [H _]; discriminate]|].
      split; [intros groups H; discriminate|].
      split; [reflexivity | discriminate]. }
  destruct (routeOk event).
  2:{ eexists; eexists. split; [reflexivity|]. split; [reflexivity|].
      split; [now right|].
      split; [split; [discriminate | intros (_ & H & _); discriminate]|].
      split; [intros groups _ H; discriminate|].
      split; [reflexivity | discriminate]. }
  rewrite Proxy_fetchGroups_outcome. unfold upstreamAnswered.
  destruct (network E Proxy.apiUrl) as [|response] eqn:Hnet.
  { eexists; eexists. split; [reflexivity|]. split; [reflexivity|].
    split; [now right|].
    split; [split; [discriminate
                   | intros (_ & _ & groups & r & v & H & _); discriminate]|].
    split; [intros groups _ _ (r & v & H & _); discriminate|].
    split; [discriminate | reflexivity]. }
  destruct (ok response) eqn:Hok.
  2:{ eexists; eexists. split; [reflexivity|]. split; [reflexivity|].
      split; [now right|].
      split; [split; [discriminate
                     | intros (_ & _ & groups & r & v & [= <-] & H & _); congruence]|].
      split; [intros groups _ _ (r & v & [= <-] & H & _); congruence|].
      split; [discriminate | reflexivity]. }
  destruct (json response) as [responseData|] eqn:Hjson.
  2:{ eexists; eexists. split; [reflexivity|]. split; [reflexivity|].
      split; [now right|].
      split; [split; [discriminate
                     | intros (_ & _ & groups & r & v & [= <-] & _ & H & _);
                       congruence]|].
      split; [intros groups _ _ (r & v & [= <-] & _ & H & _); congruence|].
      split; [discriminate | reflexivity]. }
  destruct (fetchedGroups responseData) as [fetched|] eqn:Hdata.
  2:{ eexists; eexists. split; [reflexivity|]. split; [reflexivity|].
      split; [now right|].
      split; [split; [discriminate
                     | intros (_ & _ & groups & r & v & [= <-] & _ & Hv & H);
                       congruence]|].
      split; [intros groups _ _ (r & v & [= <-] & _ & Hv & H); congruence|].
      split; [discriminate | reflexivity]. }
  eexists; eexists. split; [reflexivity|]. split; [reflexivity|].
  split; [now left|].
  split; [split; [intros _ | reflexivity]|].
  { split; [reflexivity|]. split; [reflexivity|].
    exists fetched, response, responseData. repeat split; assumption. }
  split.
  { intros groups _ _ (r & v & [= <-] & _ & Hv & H). simpl.
    rewrite Hjson in Hv. injection Hv as <-.
    rewrite Hdata in H. injection H as <-. reflexivity. }
  split; [discriminate | reflexivity].
Qed.

Lemma Proxy_handler_GET_answer_witness :
  exists answer,
    Proxy.handler configured groupsRequest (upstream [closedGroup; openGroup])
      initialState
    = (Normal (Some answer), afterRequest initialState Proxy.apiUrl) /\
    statusCode answer = 200%Z.
Proof.
  destruct (Proxy_handler_GET_answer configured groupsRequest
              (upstream [closedGroup; openGroup]) initialState eq_refl)
    as (answer & st' & Hrun & _ & _ & H200 & _ & _ & Hst).
  exists answer. split.
  - rewrite Hrun. now rewrite (Hst eq_refl).
  - apply H200. split; [reflexivity|]. split; [reflexivity|].
    exists [closedGroup; openGroup]. eexists; eexists. repeat split.
Defined.

(** X10. A GET request is always answered by the personal-access-token
    variant of the handler, with the CORS headers and with status 200 or
    500, never by an exception. The status is 200 exactly when both
    credentials are set, the path selects the groups route and the upstream
    answers with an OK status and a JSON body other than [null] whose [data]
    is an array of groups, or is absent or falsy; the body then holds the
    groups that [fetchGroups] forwards and the time of the answer. With a
    credential missing or another route the upstream is not contacted;
    otherwise it is contacted once. *)
Theorem ProxyPAT_handler_GET_answer (process : Process) (event : Event)
    (E : Env) (st : State)
    (Hget : httpMethod event = "GET") :
  exists answer st',
    ProxyPAT.handler process event E st = (Normal (Some answer), st') /\
    headers answer = corsHeaders /\
    (statusCode answer = 200 \/ statusCode answer = 500)%Z /\
    (statusCode answer = 200%Z <->
       tokenOk process = true /\ routeOk event = true /\
       exists groups, upstreamAnswered E groups) /\
    (forall groups,
       tokenOk process = true -> routeOk event = true ->
       upstreamAnswered E groups ->
       body answer
       = GroupsBody (map ProxyPAT.processGroupData (filter ProxyPAT.keep groups))
                    (now process)) /\
    (tokenOk process && routeOk event = false -> st' = st) /\
    (tokenOk process && routeOk event = true ->
       st' = afterRequest st Proxy.apiUrl).
Proof.
  rewrite (ProxyPAT_handler_GET process event E st Hget).
  destruct (tokenOk process); cbn [andb].
  2:{ eexists; eexists. split; [reflexivity|]. split; [reflexivity|].
      split; [now right|]. split; [split; [discriminate | intros [H _]; discriminate]|].
      split; [intros groups H; discriminate|].
      split; [reflexivity | discriminate]. }
  destruct (routeOk event).
  2:{ eexists; eexists. split; [reflexivity|]. split; [reflexivity|].
      split; [now right|].
      split; [split; [discriminate | intros (_ & H & _); discriminate]|].
      split; [intros groups _ H; discriminate|].
      split; [reflexivity | discriminate]. }
  rewrite ProxyPAT_fetchGroups_outcome. unfold upstreamAnswered.
  destruct (network E Proxy.apiUrl) as [|response] eqn:Hnet.
  { eexists; eexists. split; [reflexivity|]. split; [reflexivity|].
    split; [now right|].
    split; [split; [discriminate
                   | intros (_ & _ & groups & r & v & H & _); discriminate]|].
    split; [intros groups _ _ (r & v & H & _); discriminate|].
    split; [discriminate | reflexivity]. }
  destruct (ok response) eqn:Hok.
  2:{ eexists; eexists. split; [reflexivity|]. split; [reflexivity|].
      split; [now right|].
      split; [split; [discriminate
                     | intros (_ & _ & groups & r & v & [= <-] & H & _); congruence]|].
      split; [intros groups _ _ (r & v & [= <-] & H & _); congruence|].
      split; [discriminate | reflexivity]. }
  destruct (json response) as [responseData|] eqn:Hjson.
  2:{ eexists; eexists. split; [reflexivity|]. split; [reflexivity|].
      split; [now right|].
      split; [split; [discriminate
                     | intros (_ & _ & groups & r & v & [= <-] & _ & H & _);
                       congruence]|].
      split; [intros groups _ _ (r & v & [= <-] & _ & H & _); congruence|].
      split; [discriminate | reflexivity]. }
  destruct (fetchedGroups responseData) as [fetched|] eqn:Hdata.
  2:{ eexists; eexists. split; [reflexivity|]. split; [reflexivity|].
      split; [now right|].
      split; [split; [discriminate
                     | intros (_ & _ & groups & r & v & [= <-] & _ & Hv & H);
                       congruence]|].
      split; [intros groups _ _ (r & v & [= <-] & _ & Hv & H); congruence|].
      split; [discriminate | reflexivity]. }
  eexists; eexists. split; [reflexivity|]. split; [reflexivity|].
  split; [now left|].
  split; [split; [intros _ | reflexivity]|].
  { split; [reflexivity|]. split; [reflexivity|].
    exists fetched, response, responseData. repeat split; assumption. }
  split.
  { intros groups _ _ (r & v & [= <-] & _ & Hv & H). simpl.
    rewrite Hjson in Hv. injection Hv as <-.
    rewrite Hdata in H. injection H as <-. reflexivity. }
  split; [discriminate | reflexivity].
Qed.

Lemma ProxyPAT_handler_GET_answer_witness :
  exists answer,
    ProxyPAT.handler configured groupsRequest (upstream [closedGroup; openGroup])
      initialState
    = (Normal (Some answer), afterRequest initialState Proxy.apiUrl) /\
    statusCode answer = 200%Z.
Proof.
  destruct (ProxyPAT_handler_GET_answer configured groupsRequest
              (upstream [closedGroup; openGroup]) initialState eq_refl)
    as (answer & st' & Hrun & _ & _ & H200 & _ & _ & Hst).
  exists answer. split.
  - rewrite Hrun. now rewrite (Hst eq_refl).
  - apply H200. split; [reflexivity|]. split; [reflexivity|].
    exists [closedGroup; openGroup]. eexists; eexists. repeat split.
Defined.

(** ** The two proxy variants, and the proxy with the client *)

Lemma Proxy_keep_implies group :
  Proxy.keep group = true -> ProxyPAT.keep group = true.
Proof.
  unfold Proxy.keep, ProxyPAT.keep. rewrite !andb_true_iff. intros [[H _] _].
  exact H.
Qed.

Lemma filter_Subsequence {A} (f g : A -> bool) (l : list A) :
  (forall x, f x = true -> g x = true) ->
  Subsequence (filter f l) (filter g l).
Proof.
  intros Hfg. induction l as [|x l IH]; simpl; [constructor|].
  destruct (f x) eqn:Hf.
  - rewrite (Hfg x Hf). now constructor.
  - destruct (g x); [now constructor | exact IH].
Qed.

Lemma map_Subsequence {A B} (f : A -> B) l1 l2 :
  Subsequence l1 l2 -> Subsequence (map f l1) (map f l2).
Proof. induction 1; simpl; now constructor. Qed.

(** X11. On the same upstream answer the two variants of [fetchGroups] fail
    together, with the same error, or succeed together, and then the list
    of the variant of [netlify/functions/planning-center.js] is the list of
    the personal-access-token variant with some records left out, in the
    same order. Both make one request. *)
Theorem fetchGroups_variants (E : Env) (st : State)
    (clientId appId secret secret' : string) :
  match Proxy.fetchGroups clientId secret E st,
        ProxyPAT.fetchGroups appId secret' E st with
  | (Normal strict, st1), (Normal loose, st2) =>
      Subsequence strict loose /\
      st1 = afterRequest st Proxy.apiUrl /\ st2 = st1
  | (Throw e1, st1), (Throw e2, st2) =>
      e1 = e2 /\ st1 = afterRequest st Proxy.apiUrl /\ st2 = st1
  | _, _ => False
  end.
Proof.
  rewrite Proxy_fetchGroups_outcome, ProxyPAT_fetchGroups_outcome.
  destruct (network E Proxy.apiUrl) as [|response]; [repeat split|].
  destruct (ok response); [|repeat split].
  destruct (json response) as [responseData|]; [|repeat split].
  destruct (fetchedGroups responseData) as [groups|]; [|repeat split].
  split; [|split; reflexivity].
  apply map_Subsequence, filter_Subsequence, Proxy_keep_implies.
Qed.

Lemma activeRaw_processGroupData group :
  activeRaw (Proxy.processGroupData group) = ProxyPAT.keep group.
Proof.
  unfold activeRaw, ProxyPAT.keep.
  change (Attributes.archived (attributesOf (Proxy.processGroupData group)))
    with (Some (orElseBool (Attributes.archived (attributesOf group)) false)).
  destruct (Attributes.archived (attributesOf group)) as [[|]|]; reflexivity.
Qed.

Lemma filter_activeRaw_forwarded (keep : RawGroup -> bool) (l : list RawGroup) :
  (forall group, keep group = true -> ProxyPAT.keep group = true) ->
  filter activeRaw (map Proxy.processGroupData (filter keep l))
  = map Proxy.processGroupData (filter keep l).
Proof.
  intros Hkeep. induction l as [|g l IH]; simpl; [reflexivity|].
  destruct (keep g) eqn:Hg; [|exact IH].
  simpl. rewrite activeRaw_processGroupData, (Hkeep g Hg). now rewrite IH.
Qed.

Lemma orElse_truthy a d : truthy d = true -> truthy (orElse a d) = true.
Proof.
  intros Hd. unfold orElse. destruct a as [s|]; [|exact Hd].
  destruct (truthy s) eqn:Hs; [exact Hs | exact Hd].
Qed.

(** X12. [processGroupData] keeps the identifier and hands on a record whose
    name, location, schedule and enrollment are non-empty strings and whose
    [archived] is a boolean. The client's activity test [archived === false]
    holds of the record exactly when the upstream [archived] was not true, so
    the client drops no group that either proxy variant forwards: when
    [processGroups] returns on a forwarded batch, it has one record for each
    forwarded group, in order. *)
Theorem processGroupData_normalises (group : RawGroup) :
  let out := attributesOf (Proxy.processGroupData group) in
  raw_id (Proxy.processGroupData group) = raw_id group /\
  truthyOpt (Attributes.name out) = true /\
  truthyOpt (Attributes.location out) = true /\
  truthyOpt (Attributes.schedule out) = true /\
  truthyOpt (Attributes.enrollment out) = true /\
  (exists b, Attributes.archived out = Some b) /\
  activeRaw (Proxy.processGroupData group) = ProxyPAT.keep group /\
  (Proxy.keep group = true -> activeRaw (Proxy.processGroupData group) = true) /\
  (forall (keep : RawGroup -> bool) fetched E st processed st',
     keep = Proxy.keep \/ keep = ProxyPAT.keep ->
     processGroups (map Proxy.processGroupData (filter keep fetched)) E st
       = (Normal processed, st') ->
     map id processed = map raw_id (filter keep fetched)).
Proof.
  intros out. split; [reflexivity|].
  split; [apply orElse_truthy; reflexivity|].
  split; [apply orElse_truthy; reflexivity|].
  split; [apply orElse_truthy; reflexivity|].
  split; [apply orElse_truthy; reflexivity|].
  split; [eexists; reflexivity|].
  split; [apply activeRaw_processGroupData|].
  split.
  - intros H. rewrite activeRaw_processGroupData. now apply Proxy_keep_implies.
  - intros keep fetched E st processed st' Hkeep Hrun.
    apply processGroups_keeps_active in Hrun. rewrite Hrun.
    rewrite filter_activeRaw_forwarded.
    + rewrite map_map. reflexivity.
    + destruct Hkeep as [->| ->]; [apply Proxy_keep_implies | tauto].
Qed.

Lemma filterBoolean_forwarded group :
  filterBoolean (locationCandidates (attributesOf (Proxy.processGroupData group)))
  = [ orElse (Attributes.location_type_preference (attributesOf group)) "DMV Area" ].
Proof.
  unfold locationCandidates.
  change (attributesOf (Proxy.processGroupData group)) with
    {| Attributes.name :=
         Some (orElse (Attributes.name (attributesOf group)) "Unnamed Group");
       Attributes.description :=
         Some (orElse (Attributes.description (attributesOf group)) "");
       Attributes.location :=
         Some (orElse (Attributes.location_type_preference (attributesOf group))
                      "DMV Area");
       Attributes.schedule :=
         Some (orElse (Attributes.schedule (attributesOf group)) "Contact for details");
       Attributes.contact_email :=
         Some (orElse (Attributes.contact_email (attributesOf group)) "");
       Attributes.public_url :=
         Some (orElse (Attributes.public_church_center_web_url (attributesOf group)) "");
       Attributes.memberships_count :=
         Some (orElseZ (Attributes.memberships_count (attributesOf group)) 0);
       Attributes.archived :=
         Some (orElseBool (Attributes.archived (attributesOf group)) false);
       Attributes.updated_at := Attributes.updated_at (attributesOf group);
       Attributes.group_type :=
         Some (orElse (Attributes.group_type (attributesOf group)) "");
       Attributes.enrollment :=
         Some (orElse (Attributes.enrollment (attributesOf group)) "open");
       Attributes.location_type_preference := None;
       Attributes.contact_info := None;
       Attributes.church_center_url_location := None;
       Attributes.address := None;
       Attributes.meeting_location := None;
       Attributes.public_church_center_web_url := None |}.
  cbn [Attributes.location_type_preference Attributes.location
       Attributes.contact_info Attributes.church_center_url_location
       Attributes.address Attributes.meeting_location filterBoolean].
  rewrite orElse_truthy by reflexivity. reflexivity.
Qed.

Lemma selectedLocation_forwarded group :
  selectedLocation (attributesOf (Proxy.processGroupData group)) =
  let first := orElse (Attributes.location_type_preference (attributesOf group))
                      "DMV Area" in
  if noInfo first then
    orElse (extractLocationFromName
              (Some (orElse (Attributes.name (attributesOf group)) "Unnamed Group")))
           first
  else first.
Proof.
  unfold selectedLocation. rewrite filterBoolean_forwarded. reflexivity.
Qed.

(** X13. Of an upstream group the client's [extractLocation] sees, through
    [processGroupData], the location type preference and the name only: two
    groups that agree on both get the same location, whatever their other
    fields. A group without a preference and without a name gets no location;
    a group without a preference whose name holds a keyword is located by
    that keyword. *)
Theorem extractLocation_of_forwarded (group : RawGroup) (E : Env) (st : State) :
  (forall other,
     Attributes.location_type_preference (attributesOf other)
       = Attributes.location_type_preference (attributesOf group) ->
     Attributes.name (attributesOf other) = Attributes.name (attributesOf group) ->
     extractLocation (attributesOf (Proxy.processGroupData other)) E st
     = extractLocation (attributesOf (Proxy.processGroupData group)) E st) /\
  (truthyOpt (Attributes.location_type_preference (attributesOf group)) = false ->
   truthyOpt (Attributes.name (attributesOf group)) = false ->
   extractLocation (attributesOf (Proxy.processGroupData group)) E st
   = (Normal noLocation, st)) /\
  (forall keyword,
     truthyOpt (Attributes.location_type_preference (attributesOf group)) = false ->
     extractLocationFromName (Attributes.name (attributesOf group)) = Some keyword ->
     selectedLocation (attributesOf (Proxy.processGroupData group)) = keyword).
Proof.
  assert (Hdefault : forall a, truthyOpt a = false -> orElse a "DMV Area" = "DMV Area").
  { intros [s|]; simpl; [|reflexivity]. intros ->. reflexivity. }
  split; [|split].
  - intros other Hltp Hname. unfold extractLocation.
    rewrite !selectedLocation_forwarded, Hltp, Hname. reflexivity.
  - intros Hltp Hname. unfold extractLocation.
    rewrite selectedLocation_forwarded. cbv zeta.
    rewrite (Hdefault _ Hltp).
    assert (Hn : orElse (Attributes.name (attributesOf group)) "Unnamed Group"
                 = "Unnamed Group").
    { destruct (Attributes.name (attributesOf group)) as [s|]; simpl in *;
        [now rewrite Hname | reflexivity]. }
    rewrite Hn. reflexivity.
  - intros keyword Hltp Hkw. rewrite selectedLocation_forwarded. cbv zeta.
    rewrite (Hdefault _ Hltp).
    assert (Hn : orElse (Attributes.name (attributesOf group)) "Unnamed Group"
                 = match Attributes.name (attributesOf group) with
                   | Some s => s
                   | None => ""
                   end /\ exists s, Attributes.name (attributesOf group) = Some s
                                    /\ truthy s = true).
    { unfold extractLocationFromName in Hkw.
      destruct (Attributes.name (attributesOf group)) as [s|]; [|discriminate].
      destruct (truthy s) eqn:Hs; [|discriminate].
      split; [simpl; now rewrite Hs | now exists s]. }
    destruct Hn as [Hn (s & Hs & Hts)]. rewrite Hn, Hs.
    change (noInfo "DMV Area") with true. cbv iota.
    rewrite Hs in Hkw. rewrite Hkw. unfold orElse.
    assert (Hm : meaningful keyword = true)
      by (eapply extractLocationFromName_meaningful; eassumption).
    unfold meaningful in Hm. destruct (truthy keyword); [reflexivity|discriminate].
Qed.

Lemma extractLocation_of_forwarded_witness :
  selectedLocation (attributesOf (Proxy.processGroupData openGroup)) = "shaw".
Proof.
  exact (proj2 (proj2 (extractLocation_of_forwarded openGroup halfDraws initialState))
           "shaw" eq_refl eq_refl).
Defined.

Lemma processGroupData_normalises_witness :
  exists processed,
    processGroups
      (map Proxy.processGroupData (filter Proxy.keep [closedGroup; openGroup]))
      halfDraws initialState
    = (Normal processed, afterDraws initialState 2) /\
    map id processed = ["8"].
Proof.
  eexists. split; [reflexivity|].
  destruct (processGroupData_normalises openGroup)
    as (_ & _ & _ & _ & _ & _ & _ & _ & H).
  exact (H Proxy.keep [closedGroup; openGroup] halfDraws initialState _ _
           (or_introl eq_refl) eq_refl).
Defined.

(** ** Statistics *)

Lemma getGroups_is_fallback E st :
  getGroups E st = (Normal (Some fallbackGroups), st).
Proof. reflexivity. Qed.

Lemma filter_types_partition groups :
  (List.length (filter isCommunity groups) + List.length (filter isAffinity groups)
   = List.length groups)%nat.
Proof.
  induction groups as [|g l IH]; [reflexivity|].
  cbn [filter]. unfold isCommunity at 1, isAffinity at 1.
  destruct (groupType g); cbn [List.length]; lia.
Qed.

Lemma sumMembers_from groups : forall acc,
  fold_left (fun sum g => (sum + memberCount g)%Z) groups acc
  = (acc + sumMembers groups)%Z.
Proof.
  unfold sumMembers. induction groups as [|g l IH]; intros acc; simpl; [lia|].
  rewrite IH, (IH (memberCount g)). lia.
Qed.

Lemma sumMembers_cons g l : sumMembers (g :: l) = (memberCount g + sumMembers l)%Z.
Proof. unfold sumMembers at 1. simpl. apply sumMembers_from. Qed.

Lemma sumMembers_bounds groups lo hi :
  (forall g, In g groups -> (lo <= memberCount g <= hi)%Z) ->
  (Z.of_nat (List.length groups) * lo <= sumMembers groups
   <= Z.of_nat (List.length groups) * hi)%Z.
Proof.
  induction groups as [|g l IH]; intros Hall.
  - unfold sumMembers; simpl. lia.
  - rewrite sumMembers_cons. cbn [List.length]. rewrite Nat2Z.inj_succ.
    pose proof (Hall g (or_introl eq_refl)).
    assert (Hl : forall g', In g' l -> (lo <= memberCount g' <= hi)%Z)
      by (intros g' Hin; apply Hall; now right).
    specialize (IH Hl). lia.
Qed.

(** X14. In the statistics built from any list of groups the community and
    affinity counts add up to the total; the average is undefined exactly for
    the empty list; and when every member count lies between two bounds, so
    do the total divided by the number of groups and the rounded average. *)
Theorem statsOf_consistent (groups : list GroupRecord) :
  let stats := statsOf groups in
  (communityGroups stats + affinityGroups stats = totalGroups stats)%Z /\
  (averageGroupSize stats = None <-> groups = []) /\
  (forall lo hi,
     (forall g, In g groups -> (lo <= memberCount g <= hi)%Z) ->
     (totalGroups stats * lo <= totalMembers stats <= totalGroups stats * hi)%Z /\
     forall average,
       averageGroupSize stats = Some average -> (lo <= average <= hi)%Z).
Proof.
  intros stats. subst stats. unfold statsOf.
  cbn [communityGroups affinityGroups totalGroups totalMembers averageGroupSize].
  split; [|split].
  - rewrite <- Nat2Z.inj_add. f_equal. apply filter_types_partition.
  - destruct groups; simpl; split; congruence.
  - intros lo hi Hall.
    pose proof (sumMembers_bounds groups lo hi Hall) as Hsum.
    split; [exact Hsum|].
    intros average Havg.
    destruct groups as [|g l]; [discriminate|].
    remember (sumMembers (g :: l)) as total eqn:Ht.
    remember (Z.of_nat (List.length (g :: l))) as n eqn:Hn.
    assert (Hpos : (0 < n)%Z) by (subst n; cbn [List.length]; lia).
    assert (Hdef : roundedAverage total (g :: l)
                   = Some ((2 * total + n) / (2 * n))%Z)
      by (subst n; reflexivity).
    assert (Heq : average = ((2 * total + n) / (2 * n))%Z) by congruence.
    rewrite Heq. clear Hdef Havg Heq.
    split.
    + apply Z.div_le_lower_bound; nia.
    + assert ((2 * total + n) / (2 * n) < hi + 1)%Z; [|lia].
      apply Z.div_lt_upper_bound; nia.
Qed.

Lemma setAdd_In x set r : In r (setAdd x set) <-> r = x \/ In r set.
Proof.
  unfold setAdd. destruct (existsb (String.eqb x) set) eqn:Hex.
  - apply existsb_exists in Hex. destruct Hex as (y & Hy & Heq).
    apply String.eqb_eq in Heq. subst y. split; [tauto|].
    intros [->|H]; assumption.
  - rewrite in_app_iff. simpl. split; [intros [H|[H|[]]]; auto | intros [->|H]; auto].
Qed.

Lemma setAdd_NoDup x set : NoDup set -> NoDup (setAdd x set).
Proof.
  intros Hnd. unfold setAdd. destruct (existsb (String.eqb x) set) eqn:Hex;
    [exact Hnd|].
  apply NoDup_app; [exact Hnd | repeat constructor; intros [] |].
  intros y Hy [Heq|[]]. subst y.
  assert (Ht : existsb (String.eqb x) set = true).
  { apply existsb_exists. exists x. split; [exact Hy | apply String.eqb_refl]. }
  congruence.
Qed.

Lemma coverage_fold groups : forall coverage,
  NoDup coverage ->
  let result :=
    fold_left
      (fun coverage group =>
         match regionOf (Location.neighborhood (location group)) with
         | Some region => setAdd region coverage
         | None => coverage
         end) groups coverage in
  NoDup result /\
  forall r, In r result <->
    In r coverage \/
    exists g, In g groups /\
              regionOf (Location.neighborhood (location g)) = Some r.
Proof.
  induction groups as [|g l IH]; intros coverage Hnd; cbn [fold_left].
  - split; [exact Hnd|]. intros r. split; [auto|].
    intros [H|(g & [] & _)]. exact H.
  - destruct (regionOf (Location.neighborhood (location g))) as [region|] eqn:Hr.
    + destruct (IH (setAdd region coverage) (setAdd_NoDup _ _ Hnd)) as [Hnd' Hin].
      split; [exact Hnd'|]. intros r. rewrite Hin, setAdd_In.
      split.
      * intros [[->|H]|(g' & Hg' & Hreg)].
        -- right. exists g. split; [now left | exact Hr].
        -- now left.
        -- right. exists g'. split; [now right | exact Hreg].
      * intros [H|(g' & [<-|Hg'] & Hreg)].
        -- left. now right.
        -- left. left. congruence.
        -- right. exists g'. split; assumption.
    + destruct (IH coverage Hnd) as [Hnd' Hin].
      split; [exact Hnd'|]. intros r. rewrite Hin.
      split.
      * intros [H|(g' & Hg' & Hreg)]; [now left|].
        right. exists g'. split; [now right | exact Hreg].
      * intros [H|(g' & [<-|Hg'] & Hreg)]; [now left | congruence |].
        right. exists g'. split; assumption.
Qed.

Lemma regionOf_regions neighborhood region :
  regionOf neighborhood = Some region -> In region regions.
Proof.
  unfold regionOf, regions.
  destruct (_ || _); [intros [= <-]; simpl; tauto|].
  destruct (existsb _ _); [intros [= <-]; simpl; tauto|].
  destruct (existsb _ _); [intros [= <-]; simpl; tauto | discriminate].
Qed.

(** X15. [analyzeLocationCoverage] lists each region once and lists no more
    than the three regions "Washington DC", "Northern Virginia" and
    "Maryland"; a region is listed exactly when the [if]/[else if] chain
    assigns it to the neighborhood of some group, so which regions are listed
    does not depend on the order of the groups. *)
Theorem analyzeLocationCoverage_regions (groups : list GroupRecord) :
  NoDup (analyzeLocationCoverage groups) /\
  (forall region,
     In region (analyzeLocationCoverage groups) <->
     exists g, In g groups /\
               regionOf (Location.neighborhood (location g)) = Some region) /\
  incl (analyzeLocationCoverage groups) regions /\
  (List.length (analyzeLocationCoverage groups) <= 3)%nat.
Proof.
  destruct (coverage_fold groups [] (NoDup_nil _)) as [Hnd Hin].
  cbv zeta in Hnd, Hin. fold (analyzeLocationCoverage groups) in Hnd, Hin.
  assert (Hspec : forall region,
     In region (analyzeLocationCoverage groups) <->
     exists g, In g groups /\
               regionOf (Location.neighborhood (location g)) = Some region).
  { intros region. rewrite Hin. split; [intros [[]|H]; exact H | auto]. }
  assert (Hincl : incl (analyzeLocationCoverage groups) regions).
  { intros region Hr. apply Hspec in Hr. destruct Hr as (g & _ & Hreg).
    eapply regionOf_regions; eassumption. }
  split; [exact Hnd|]. split; [exact Hspec|]. split; [exact Hincl|].
  change 3%nat with (List.length regions).
  now apply NoDup_incl_length.
Qed.

(** X16. In every environment [getGroupStats] returns the statistics of the
    fallback list without any request: five groups, three community and two
    affinity groups, 51 members, an average of 10, and the regions
    "Washington DC", "Northern Virginia" and "Maryland". Its [catch] is never
    taken; the constants written there agree with these numbers but name
    the regions "DC", "Northern VA" and "Maryland". *)
Theorem getGroupStats_of_fallback (E : Env) (st : State) :
  getGroupStats E st
  = (Normal {| totalGroups := 5;
               communityGroups := 3;
               affinityGroups := 2;
               totalMembers := 51;
               averageGroupSize := Some 10%Z;
               locationCoverage :=
                 [ "Washington DC"; "Northern Virginia"; "Maryland" ] |}, st) /\
  getGroupStats E st = (Normal (statsOf fallbackGroups), st) /\
  totalGroups defaultStats = totalGroups (statsOf fallbackGroups) /\
  communityGroups defaultStats = communityGroups (statsOf fallbackGroups) /\
  affinityGroups defaultStats = affinityGroups (statsOf fallbackGroups) /\
  totalMembers defaultStats = totalMembers (statsOf fallbackGroups) /\
  averageGroupSize defaultStats = averageGroupSize (statsOf fallbackGroups) /\
  locationCoverage defaultStats <> locationCoverage (statsOf fallbackGroups).
Proof.
  assert (Hrun : getGroupStats E st = (Normal (statsOf fallbackGroups), st)).
  { unfold getGroupStats, catching.
    erewrite bind_Normal by apply getGroups_is_fallback.
    reflexivity. }
  split; [rewrite Hrun; vm_compute; reflexivity|].
  split; [exact Hrun|].
  repeat split; try (vm_compute; reflexivity).
  vm_compute. discriminate.
Qed.

(** ** [extractNeighborhood] *)

Lemma trimStart_startsClean s : startsClean (trimStart s) = true.
Proof.
  induction s as [|c s IH]; [reflexivity|]. simpl.
  destruct (isWhiteSpace c) eqn:Hc; [exact IH|]. simpl. now rewrite Hc.
Qed.

Lemma trimStart_clean s : startsClean s = true -> trimStart s = s.
Proof.
  destruct s as [|c s]; [reflexivity|]. simpl.
  destruct (isWhiteSpace c); [discriminate | reflexivity].
Qed.

Lemma trimEnd_startsClean s : startsClean s = true -> startsClean (trimEnd s) = true.
Proof.
  destruct s as [|c s]; [reflexivity|]. simpl.
  destruct (isWhiteSpace c) eqn:Hc; [discriminate|]. simpl. intros _.
  now rewrite Hc.
Qed.

Lemma trimEnd_idempotent s : trimEnd (trimEnd s) = trimEnd s.
Proof.
  induction s as [|c s IH]; [reflexivity|]. simpl.
  destruct (isWhiteSpace c && (trimEnd s =? "")) eqn:Hcond; [reflexivity|].
  simpl. rewrite IH, Hcond. reflexivity.
Qed.

Lemma trim_idempotent s : trim (trim s) = trim s.
Proof.
  unfold trim.
  rewrite (trimStart_clean (trimEnd (trimStart s))).
  - apply trimEnd_idempotent.
  - apply trimEnd_startsClean, trimStart_startsClean.
Qed.

Lemma beforeComma_commaFree s : commaFree (beforeComma s) = true.
Proof.
  induction s as [|c s IH]; [reflexivity|]. simpl.
  destruct (Ascii.eqb c ",") eqn:Hc; [reflexivity|]. simpl. now rewrite Hc.
Qed.

Lemma beforeComma_id s : commaFree s = true -> beforeComma s = s.
Proof.
  induction s as [|c s IH]; [reflexivity|]. simpl.
  destruct (Ascii.eqb c ","); [discriminate|]. simpl. intros H. now rewrite IH.
Qed.

Lemma trimStart_commaFree s : commaFree s = true -> commaFree (trimStart s) = true.
Proof.
  induction s as [|c s IH]; [reflexivity|]. simpl.
  destruct (isWhiteSpace c); [|trivial].
  intros H. apply andb_true_iff in H. apply IH, H.
Qed.

Lemma trimEnd_commaFree s : commaFree s = true -> commaFree (trimEnd s) = true.
Proof.
  induction s as [|c s IH]; [reflexivity|]. simpl.
  intros H. apply andb_true_iff in H. destruct H as [Hc Hs].
  destruct (isWhiteSpace c && (trimEnd s =? "")); [reflexivity|].
  simpl. now rewrite Hc, IH.
Qed.

Lemma commaFree_includes s : commaFree s = true -> includes s "," = false.
Proof.
  induction s as [|c s IH]; [reflexivity|].
  simpl commaFree. intros H. apply andb_true_iff in H. destruct H as [Hc Hs].
  rewrite includes_unfold. rewrite (IH Hs), orb_false_r.
  destruct (String.prefix "," (String c s)) eqn:Hp; [|reflexivity].
  apply prefix_iff in Hp. destruct Hp as [post Hp].
  injection Hp as Heq _. subst c. discriminate.
Qed.

(** X17. The neighborhood that [extractNeighborhood] returns is never empty,
    holds no comma and has no white space around it, and it is its own
    neighborhood: extracting twice gives what extracting once gives. *)
Theorem extractNeighborhood_stable (locationString : string) :
  extractNeighborhood locationString <> "" /\
  includes (extractNeighborhood locationString) "," = false /\
  trim (extractNeighborhood locationString) = extractNeighborhood locationString /\
  extractNeighborhood (extractNeighborhood locationString)
  = extractNeighborhood locationString.
Proof.
  set (part := trim (beforeComma locationString)).
  assert (Hdef : extractNeighborhood locationString
                 = if truthy part then part else "DMV Area") by reflexivity.
  assert (Hfree : commaFree part = true).
  { subst part. unfold trim.
    apply trimEnd_commaFree, trimStart_commaFree, beforeComma_commaFree. }
  assert (Htrim : trim part = part) by (subst part; apply trim_idempotent).
  rewrite Hdef. clear Hdef.
  destruct (truthy part) eqn:Ht.
  - split.
    { unfold truthy in Ht. destruct (String.eqb_spec part ""); [discriminate|assumption]. }
    split; [now apply commaFree_includes|]. split; [exact Htrim|].
    unfold extractNeighborhood. rewrite (beforeComma_id part Hfree), Htrim, Ht.
    reflexivity.
  - split; [discriminate|]. repeat split.
Qed.

(** ** The client with the basic geocoder *)

Lemma basic_geocodeLocation_literal locationString :
  In (PlanningCenterAPIBasic.geocodeLocation locationString)
     ((38.9072, -77.0369)%Q :: map snd PlanningCenterAPIBasic.dmvLocations).
Proof.
  unfold PlanningCenterAPIBasic.geocodeLocation.
  destruct (find _ PlanningCenterAPIBasic.dmvLocations) as [[place coords]|] eqn:Hf.
  - right. apply find_some in Hf. destruct Hf as [Hin _].
    change coords with (snd (place, coords)). now apply in_map.
  - now left.
Qed.

Lemma basic_processGroups_filter rawGroups :
  PlanningCenterAPIBasic.processGroups rawGroups
  = map PlanningCenterAPIBasic.processGroup (filter activeRaw rawGroups).
Proof.
  unfold PlanningCenterAPIBasic.processGroups.
  induction rawGroups as [|g l IH]; [reflexivity|].
  cbn [map filter]. rewrite IH.
  change (PlanningCenterAPIBasic.isActive (PlanningCenterAPIBasic.processGroup g))
    with (activeRaw g).
  change (PlanningCenterAPIBasic.coordinates (PlanningCenterAPIBasic.processGroup g))
    with (Some (PlanningCenterAPIBasic.Location.coordinates
                  (PlanningCenterAPIBasic.extractLocation (attributesOf g)))).
  rewrite andb_true_r. destruct (activeRaw g); reflexivity.
Qed.

(** X18. In the client with the basic geocoder [processGroups] keeps exactly
    the raw groups with [archived === false], in order: its test on the
    coordinates never excludes a record, because the geocoder always answers.
    Each record carries the coordinates of its location, and these are a
    gazetteer value or the DC centre as written in the code, without any
    jitter. *)
Theorem basic_processGroups_records (rawGroups : list RawGroup) :
  map PlanningCenterAPIBasic.id (PlanningCenterAPIBasic.processGroups rawGroups)
  = map raw_id (filter activeRaw rawGroups) /\
  Forall (fun g =>
            PlanningCenterAPIBasic.isActive g = true /\
            PlanningCenterAPIBasic.coordinates g
            = Some (PlanningCenterAPIBasic.Location.coordinates
                      (PlanningCenterAPIBasic.location g)) /\
            In (PlanningCenterAPIBasic.Location.coordinates
                  (PlanningCenterAPIBasic.location g))
               ((38.9072, -77.0369)%Q
                :: map snd PlanningCenterAPIBasic.dmvLocations))
         (PlanningCenterAPIBasic.processGroups rawGroups).
Proof.
  rewrite basic_processGroups_filter. split.
  - rewrite map_map. reflexivity.
  - apply Forall_forall. intros g Hin. apply in_map_iff in Hin.
    destruct Hin as (raw & <- & Hraw). apply filter_In in Hraw.
    split; [apply Hraw|]. split; [reflexivity|].
    apply basic_geocodeLocation_literal.
Qed.

(** X19. [getGroups] of the client with the basic geocoder always returns a
    list, after one request and without drawing random values. On an OK
    answer with a JSON body that has no [error] and an array [groups] the list
    is [processGroups] of that array, and every record has coordinates;
    in every other case it is the fallback list of five records, none of
    which has a [coordinates] property of its own: their coordinates sit in
    [location] only. *)
Theorem basic_getGroups_outcome (E : Env) (st : State) :
  exists groups,
    PlanningCenterAPIBasic.getGroups E st
      = (Normal groups, afterRequest st (PlanningCenterAPIBasic.baseURL ++ "/groups")) /\
    ((exists response data rawGroups,
        network E (PlanningCenterAPIBasic.baseURL ++ "/groups") = Resolved response /\
        ok response = true /\ json response = Some (JsonObject data) /\
        truthyOpt (doc_error data) = false /\
        doc_groups data = Groups rawGroups /\
        groups = PlanningCenterAPIBasic.processGroups rawGroups /\
        Forall (fun g => PlanningCenterAPIBasic.coordinates g <> None) groups) \/
     (groups = PlanningCenterAPIBasic.fallbackGroups /\
      List.length groups = 5%nat /\
      Forall (fun g => PlanningCenterAPIBasic.coordinates g = None) groups /\
      ~ (exists response data rawGroups,
           network E (PlanningCenterAPIBasic.baseURL ++ "/groups") = Resolved response /\
           ok response = true /\ json response = Some (JsonObject data) /\
           truthyOpt (doc_error data) = false /\
           doc_groups data = Groups rawGroups))).
Proof.
  assert (Hfallback :
    List.length PlanningCenterAPIBasic.fallbackGroups = 5%nat /\
    Forall (fun g => PlanningCenterAPIBasic.coordinates g = None)
           PlanningCenterAPIBasic.fallbackGroups).
  { split; [reflexivity|].
    unfold PlanningCenterAPIBasic.fallbackGroups.
    repeat (apply Forall_cons || apply Forall_nil); reflexivity. }
  destruct Hfallback as [Hlen Hnone].
  unfold PlanningCenterAPIBasic.getGroups, catching, bind, fetch, response_json,
    groupsOf, property, bind, PlanningCenterAPIBasic.getFallbackGroups, ret, throw,
    afterRequest.
  destruct (network E (PlanningCenterAPIBasic.baseURL ++ "/groups"))
    as [|response] eqn:Hnet.
  { eexists. split; [reflexivity|]. right. repeat split; try assumption.
    intros (r & d & raw & H & _). discriminate. }
  destruct (ok response) eqn:Hok; cbn [negb].
  2:{ eexists. split; [reflexivity|]. right. repeat split; try assumption.
      intros (r & d & raw & [= <-] & H & _). congruence. }
  destruct (json response) as [[|data]|] eqn:Hjson.
  1,3:(eexists; split; [reflexivity|]; right; repeat split; try assumption;
       intros (r & d & raw & [= <-] & _ & H & _); congruence).
  destruct (truthyOpt (doc_error data)) eqn:Herr.
  { eexists. split; [reflexivity|]. right. repeat split; try assumption.
    intros (r & d & raw & [= <-] & _ & H & H' & _). congruence. }
  destruct (doc_groups data) as [|rawGroups|] eqn:Hgroups.
  1,3:(eexists; split; [reflexivity|]; right; repeat split; try assumption;
       intros (r & d & raw & [= <-] & _ & H & _ & H'); congruence).
  eexists. split; [reflexivity|]. left.
  exists response, data, rawGroups. repeat split; try assumption.
  rewrite basic_processGroups_filter. apply Forall_forall.
  intros g Hin. apply in_map_iff in Hin. destruct Hin as (raw & <- & _).
  discriminate.
Qed.

(** ** Letter case and surrounding white space *)

Lemma lowerChar_idempotent c : lowerChar (lowerChar c) = lowerChar c.
Proof.
  destruct c as [b0 b1 b2 b3 b4 b5 b6 b7].
  destruct b0, b1, b2, b3, b4, b5, b6, b7; reflexivity.
Qed.

Lemma isWhiteSpace_lowerChar c : isWhiteSpace (lowerChar c) = isWhiteSpace c.
Proof.
  destruct c as [b0 b1 b2 b3 b4 b5 b6 b7].
  destruct b0, b1, b2, b3, b4, b5, b6, b7; reflexivity.
Qed.

Lemma toLowerCase_idempotent s : toLowerCase (toLowerCase s) = toLowerCase s.
Proof.
  induction s as [|c s IH]; [reflexivity|]. simpl.
  now rewrite lowerChar_idempotent, IH.
Qed.

Lemma toLowerCase_empty s : (toLowerCase s =? "") = (s =? "").
Proof. destruct s; reflexivity. Qed.

Lemma toLowerCase_trimStart s : toLowerCase (trimStart s) = trimStart (toLowerCase s).
Proof.
  induction s as [|c s IH]; [reflexivity|]. simpl.
  rewrite isWhiteSpace_lowerChar. destruct (isWhiteSpace c); [exact IH | reflexivity].
Qed.

Lemma toLowerCase_trimEnd s : toLowerCase (trimEnd s) = trimEnd (toLowerCase s).
Proof.
  induction s as [|c s IH]; [reflexivity|]. simpl.
  rewrite isWhiteSpace_lowerChar, <- IH, toLowerCase_empty.
  destruct (isWhiteSpace c && (trimEnd s =? "")); reflexivity.
Qed.

Lemma toLowerCase_trim s : toLowerCase (trim s) = trim (toLowerCase s).
Proof. unfold trim. now rewrite toLowerCase_trimEnd, toLowerCase_trimStart. Qed.

Lemma truthy_toLowerCase s : truthy (toLowerCase s) = truthy s.
Proof. unfold truthy. now rewrite toLowerCase_empty. Qed.

(** X20. Letter case never matters to the resolver and the classifier: the
    geocoder, the sentinel test, the keyword search in the name and the group
    type give the same answer for a string and for its lower-case form. White
    space around a location string does not matter to the geocoder either. *)
Theorem case_insensitive (s : string) (E : Env) (st : State) :
  geocodeLocation (toLowerCase s) E st = geocodeLocation s E st /\
  geocodeLocation (trim s) E st = geocodeLocation s E st /\
  noInfo (toLowerCase s) = noInfo s /\
  extractLocationFromName (Some (toLowerCase s)) = extractLocationFromName (Some s) /\
  (forall description,
     determineGroupType (namedAndDescribed (toLowerCase s) (toLowerCase description))
     = determineGroupType (namedAndDescribed s description)).
Proof.
  split; [|split; [|split; [|split]]].
  - unfold geocodeLocation. now rewrite toLowerCase_idempotent.
  - unfold geocodeLocation. now rewrite toLowerCase_trim, trim_idempotent.
  - unfold noInfo.
    rewrite truthy_toLowerCase, toLowerCase_idempotent, <- toLowerCase_trim,
      toLowerCase_empty. reflexivity.
  - unfold extractLocationFromName.
    now rewrite truthy_toLowerCase, toLowerCase_idempotent.
  - intros description. unfold determineGroupType, namedAndDescribed, orElse.
    cbn [Attributes.name Attributes.description Attributes.group_type].
    rewrite !truthy_toLowerCase.
    destruct (truthy s), (truthy description);
      now rewrite ?toLowerCase_idempotent.
Qed.

(** ** The route of the handler *)

Lemma dropChars_append pattern rest :
  dropChars (String.length pattern) (pattern ++ rest) = rest.
Proof. induction pattern as [|c p IH]; [now destruct rest | exact IH]. Qed.

Lemma removeFirst_unfold s pattern :
  removeFirst s pattern =
  if String.prefix pattern s then dropChars (String.length pattern) s
  else
    match s with
    | EmptyString => EmptyString
    | String c s' => String c (removeFirst s' pattern)
    end.
Proof. destruct s; reflexivity. Qed.

Lemma removeFirst_prefix pattern rest :
  removeFirst (pattern ++ rest) pattern = rest.
Proof.
  rewrite removeFirst_unfold.
  assert (H : String.prefix pattern (pattern ++ rest) = true)
    by (apply prefix_iff; now exists rest).
  rewrite H. apply dropChars_append.
Qed.

Lemma removeFirst_absent s pattern :
  includes s pattern = false -> removeFirst s pattern = s.
Proof.
  induction s as [|c s IH]; rewrite includes_unfold, removeFirst_unfold;
    intros H; apply orb_false_iff in H; destruct H as [Hp Hs]; rewrite Hp.
  - reflexivity.
  - now rewrite (IH Hs).
Qed.

(** X21. The handler routes a path by what is left once the leftmost
    occurrence of the function's own path is removed. So under the
    function's path exactly the two sub-paths "/groups" and "/groups/" reach
    [fetchGroups], and a path that does not contain the function's path does
    so exactly when it is one of these two itself. *)
Theorem handler_route (method rest other : string) :
  (routeOk {| httpMethod := method; path := functionPath ++ rest |} = true <->
   rest = "/groups" \/ rest = "/groups/") /\
  (includes other functionPath = false ->
   (routeOk {| httpMethod := method; path := other |} = true <->
    other = "/groups" \/ other = "/groups/")).
Proof.
  assert (Hroute : forall p,
            (p =? "/groups") || (p =? "/groups/") = true <->
            p = "/groups" \/ p = "/groups/").
  { intros p. rewrite orb_true_iff, !String.eqb_eq. reflexivity. }
  split.
  - unfold routeOk. cbn [path]. rewrite removeFirst_prefix. apply Hroute.
  - intros Habsent. unfold routeOk. cbn [path].
    rewrite (removeFirst_absent _ _ Habsent). apply Hroute.
Qed.

Lemma handler_route_witness :
  routeOk {| httpMethod := "GET"; path := "/groups/" |} = true <->
  "/groups/" = "/groups" \/ "/groups/" = "/groups/".
Proof.
  exact (proj2 (handler_route "GET" "" "/groups/") eq_refl).
Defined.

Lemma statsOf_consistent_witness :
  (totalGroups (statsOf fallbackGroups) * 6
   <= totalMembers (statsOf fallbackGroups)
   <= totalGroups (statsOf fallbackGroups) * 15)%Z /\
  forall average,
    averageGroupSize (statsOf fallbackGroups) = Some average ->
    (6 <= average <= 15)%Z.
Proof.
  apply (proj2 (proj2 (statsOf_consistent fallbackGroups)) 6%Z 15%Z).
  unfold fallbackGroups. intros g Hin. simpl in Hin.
  repeat (destruct Hin as [<-|Hin]; [simpl; lia|]). destruct Hin.
Defined.
